(** * lollms/media.py: AudioRecorder, WebcamImageSender, MusicPlayer

    A shallow embedding of the three media helpers of [lollms.media] and the
    properties their specification states about them.

    Conventions of the embedding:
    - a Python method that mutates [self] and may raise is a computation in
      the state-and-exception monad [Py]: the state reached when an exception
      is raised is kept, as Python keeps the attributes assigned before a
      [raise];
    - [bytes] objects are [list byte]; iterating one yields the unsigned
      values 0..255 ([sample_value]);
    - wall-clock readings, thresholds and durations are rationals; the
      root-mean-square energy is kept exact as the square root of a rational
      ([Rms]), with its meaning in the reals given by [rms_value].  Binary64
      rounding of Python floats is idealised away;
    - a worker thread is run over the finite list of values its blocking
      calls deliver (chunks with the clock reading of that iteration, frames,
      mixer busy flags). *)

From Stdlib Require Import List ZArith QArith Qreals Reals Lia Lra Bool.
From Stdlib Require Import Strings.String Strings.Byte.
From Stdlib Require Import Permutation.
Import ListNotations.

Set Implicit Arguments.

(** ** Exceptions and the state-and-exception monad *)

Inductive PyError : Type :=
| ZeroDivisionError   (* division by zero *)
| AttributeError      (* attribute access on None *)
| StreamError         (* raised by the audio I/O library *)
| Cv2Error.           (* raised by the computer-vision library *)

Inductive result (A : Type) : Type :=
| Ok (a : A)
| Raise (e : PyError).

Arguments Ok {A} a.
Arguments Raise {A} e.

Definition Py (S A : Type) : Type := S -> S * result A.

Definition ret {S A : Type} (a : A) : Py S A := fun s => (s, Ok a).

Definition raise {S A : Type} (e : PyError) : Py S A := fun s => (s, Raise e).

Definition bind {S A B : Type} (m : Py S A) (k : A -> Py S B) : Py S B :=
  fun s =>
    match m s with
    | (s', Ok a) => k a s'
    | (s', Raise e) => (s', Raise e)
    end.

Definition get {S : Type} : Py S S := fun s => (s, Ok s).

Definition modify {S : Type} (f : S -> S) : Py S unit := fun s => (f s, Ok tt).

Definition lift {S A : Type} (r : result A) : Py S A := fun s => (s, r).

Declare Scope py_scope.
Delimit Scope py_scope with py.
Notation "x <- m ;; k" := (bind m (fun x => k))
  (at level 61, m at next level, right associativity) : py_scope.
Notation "m ;;; k" := (bind m (fun _ => k))
  (at level 61, right associativity) : py_scope.

(** Status of a worker loop once the values delivered so far are consumed:
    it has left its [while], or it is still inside it, blocked on the next
    value. *)
Inductive LoopStatus : Type := Exited | Waiting.

(** ** Rationals as booleans *)

Definition Qltb (x y : Q) : bool := negb (Qle_bool y x).

(** ** AudioRecorder *)

Module Audio.

Definition bytes : Type := list byte.

(** Iterating a [bytes] object yields ints in [range(256)]. *)
Definition sample_value (b : byte) : Z := Z.of_N (Byte.to_N b).

(** Python's [sum]: left to right from 0. *)
Definition py_sum (l : list Z) : Z := fold_left Z.add l 0%Z.

(** [sum([sample ** 2 for sample in data])] *)
Definition squared_sum (data : bytes) : Z :=
  py_sum (map (fun sample => (sample ^ 2)%Z) (map sample_value data)).

(** The value [x ** 0.5] for a rational [x], kept exact. *)
Record Rms : Type := SqrtOf { radicand : Q }.

Definition rms_value (r : Rms) : R := sqrt (Q2R (radicand r)).

(** [r < t] for the root [r] and a rational [t]: a square root is never
    below a non-positive number, and below a positive one exactly when the
    radicand is below its square. *)
Definition rms_ltb (r : Rms) (t : Q) : bool :=
  Qltb 0 t && Qltb (radicand r) (t * t).

(** [_calculate_rms]: the true division raises on [len(data) == 0]. *)
Definition _calculate_rms (data : bytes) : result Rms :=
  let squared_sum := squared_sum data in
  match Z.of_nat (List.length data) with
  | Zpos n => Ok (SqrtOf (squared_sum # n))
  | _ => Raise ZeroDivisionError
  end.

(** Sample formats of the audio I/O library and their widths in bytes. *)
Inductive SampleFormat : Type :=
| paFloat32 | paInt32 | paInt24 | paInt16 | paInt8 | paUInt8.

Definition get_sample_size (f : SampleFormat) : Z :=
  match f with
  | paFloat32 | paInt32 => 4
  | paInt24 => 3
  | paInt16 => 2
  | paInt8 | paUInt8 => 1
  end.

(** Modelled from the spec: the audio I/O library's input stream, which is
    not part of the sources.  The spec says that calling [stop_recording]
    twice double-closes the stream and that the failure happens on the second
    stream-close attempt: closing a closed stream raises, while stopping a
    stream that is no longer running does nothing. *)
Inductive Stream : Type := StreamActive | StreamStopped | StreamClosed.

Definition stop_stream (s : Stream) : result Stream :=
  match s with
  | StreamActive => Ok StreamStopped
  | StreamStopped => Ok StreamStopped
  | StreamClosed => Ok StreamClosed
  end.

Definition close (s : Stream) : result Stream :=
  match s with
  | StreamActive | StreamStopped => Ok StreamClosed
  | StreamClosed => Raise StreamError
  end.

(** What the [wave] module is given between [wave.open(.., 'wb')] and
    [close()]. *)
Record WavFile : Type := mkWavFile {
  wav_path : string;
  wav_nchannels : Z;
  wav_sampwidth : Z;
  wav_framerate : Z;
  wav_frames : bytes
}.

(** The attributes of an [AudioRecorder] ([socketio] and [app] are stored
    and never read). *)
Record AudioRecorder : Type := mkAudioRecorder {
  filename : string;
  channels : Z;
  sample_rate : Z;
  chunk_size : Z;
  audio_format : SampleFormat;
  audio_stream : option Stream;
  audio_frames : list bytes;
  is_recording : bool;
  silence_threshold : Q;
  silence_duration : Q;
  last_sound_time : Q
}.

(** The recorder together with the files written and the lines printed so
    far, oldest first. *)
Record World : Type := mkWorld {
  self : AudioRecorder;
  disk : list WavFile;
  stdout : list string
}.

Definition set_is_recording (b : bool) (w : World) : World :=
  let r := self w in
  mkWorld (mkAudioRecorder (filename r) (channels r) (sample_rate r)
             (chunk_size r) (audio_format r) (audio_stream r)
             (audio_frames r) b (silence_threshold r) (silence_duration r)
             (last_sound_time r))
          (disk w) (stdout w).

Definition set_audio_stream (s : option Stream) (w : World) : World :=
  let r := self w in
  mkWorld (mkAudioRecorder (filename r) (channels r) (sample_rate r)
             (chunk_size r) (audio_format r) s
             (audio_frames r) (is_recording r) (silence_threshold r)
             (silence_duration r) (last_sound_time r))
          (disk w) (stdout w).

Definition append_frame (data : bytes) (w : World) : World :=
  let r := self w in
  mkWorld (mkAudioRecorder (filename r) (channels r) (sample_rate r)
             (chunk_size r) (audio_format r) (audio_stream r)
             (audio_frames r ++ [data]) (is_recording r)
             (silence_threshold r) (silence_duration r) (last_sound_time r))
          (disk w) (stdout w).

Definition set_last_sound_time (t : Q) (w : World) : World :=
  let r := self w in
  mkWorld (mkAudioRecorder (filename r) (channels r) (sample_rate r)
             (chunk_size r) (audio_format r) (audio_stream r)
             (audio_frames r) (is_recording r) (silence_threshold r)
             (silence_duration r) t)
          (disk w) (stdout w).

Definition write_file (f : WavFile) (w : World) : World :=
  mkWorld (self w) (disk w ++ [f]) (stdout w).

Definition print (line : string) (w : World) : World :=
  mkWorld (self w) (disk w) (stdout w ++ [line]).

(** [__init__], with the clock reading [now] of the constructor call. *)
Definition init (now : Q) (filename : string) (channels sample_rate
    chunk_size : Z) (silence_threshold silence_duration : Q) : World :=
  mkWorld (mkAudioRecorder filename channels sample_rate chunk_size paInt16
             None [] false silence_threshold silence_duration now)
          [] [].

(** The defaults of the constructor's keyword arguments. *)
Definition default_init (now : Q) (filename : string) : World :=
  init now filename 1 44100 1024 (1 # 100) 2.

(** [start_recording], up to the start of the worker thread. *)
Definition start_recording : Py World unit :=
  (modify (set_is_recording true) ;;;
   modify (set_audio_stream (Some StreamActive)) ;;;
   modify (print "Recording started..."))%py.

(** A method call on the [audio_stream] attribute: [None] has no methods. *)
Definition on_stream (op : Stream -> result Stream) : Py World unit :=
  (w <- get ;;
   match audio_stream (self w) with
   | None => raise AttributeError
   | Some s =>
       s' <- lift (op s) ;;
       modify (set_audio_stream (Some s'))
   end)%py.

Definition stop_recording : Py World unit :=
  (modify (set_is_recording false) ;;;
   on_stream stop_stream ;;;
   on_stream close ;;;
   w <- get ;;
   let r := self w in
   modify (write_file
             (mkWavFile (filename r) (channels r)
                (get_sample_size (audio_format r)) (sample_rate r)
                (List.concat (audio_frames r)))) ;;;
   modify (print ("Recording saved to " ++ filename r)))%py.

(** [self.audio_stream.read(self.chunk_size)], for the chunk [delivered] by
    the device: there must be a stream to call. *)
Definition stream_read (delivered : bytes) : Py World bytes :=
  (w <- get ;;
   match audio_stream (self w) with
   | None => raise AttributeError
   | Some _ => ret delivered
   end)%py.

(** One pass through the body of the [while] of [_record], for the chunk
    [delivered] to the blocking read and the clock reading [now] of the
    single [time.time()] call of that pass. *)
Definition _record_body (delivered : bytes) (now : Q) : Py World unit :=
  (data <- stream_read delivered ;;
   modify (append_frame data) ;;;
   rms <- lift (_calculate_rms data) ;;
   w <- get ;;
   if rms_ltb rms (silence_threshold (self w)) then
     let current_time := now in
     if Qle_bool (silence_duration (self w))
                 (current_time - last_sound_time (self w))
     then stop_recording
     else ret tt
   else modify (set_last_sound_time now))%py.

(** [_record] over the chunks the stream delivers, each with the clock
    reading of its iteration. *)
Fixpoint _record (input : list (bytes * Q)) : Py World LoopStatus :=
  fun w =>
    if is_recording (self w) then
      match input with
      | [] => (w, Ok Waiting)
      | (data, now) :: rest =>
          (_record_body data now ;;; _record rest)%py w
      end
    else (w, Ok Exited).

(** *** Vocabulary of the properties of the recorder *)

(** The chunk has an energy and it is below the threshold. *)
Definition silent (threshold : Q) (data : bytes) : bool :=
  match _calculate_rms data with
  | Ok rms => rms_ltb rms threshold
  | Raise _ => false
  end.

(** The clock reading of the last chunk of [read] whose energy was not below
    the threshold, or [t0] when there is none. *)
Definition last_sound (threshold t0 : Q) (read : list (bytes * Q)) : Q :=
  fold_left (fun t e => if silent threshold (fst e) then t else snd e)
            read t0.

(** At chunk [k] of [input] the energy is below the threshold and has been
    since the last sound, at least [duration] seconds before. *)
Definition silence_sustained (threshold duration t0 : Q)
    (input : list (bytes * Q)) (k : nat) : bool :=
  match nth_error input k with
  | Some (data, now) =>
      silent threshold data &&
      Qle_bool duration (now - last_sound threshold t0 (firstn k input))
  | None => false
  end.

(** The chunk has an energy and it is at or above the threshold. *)
Definition loud (threshold : Q) (data : bytes) : bool :=
  match _calculate_rms data with
  | Ok rms => negb (rms_ltb rms threshold)
  | Raise _ => false
  end.

Definition nonempty (data : bytes) : bool :=
  match data with
  | [] => false
  | _ :: _ => true
  end.

Definition all_zero (data : bytes) : bool :=
  forallb (fun b => Z.eqb (sample_value b) 0) data.

(** A recorder with the configuration [cfg] (file name, channels, rate,
    chunk size, format, threshold, duration), in the world of its files and
    printed lines. *)
Record Config : Type := mkConfig {
  cfg_filename : string;
  cfg_channels : Z;
  cfg_sample_rate : Z;
  cfg_chunk_size : Z;
  cfg_audio_format : SampleFormat;
  cfg_silence_threshold : Q;
  cfg_silence_duration : Q
}.

Definition config_of (r : AudioRecorder) : Config :=
  mkConfig (filename r) (channels r) (sample_rate r) (chunk_size r)
           (audio_format r) (silence_threshold r) (silence_duration r).

(** The file [stop_recording] writes for the buffer [fr], and the line it
    prints once the file is written. *)
Definition wav_of (cfg : Config) (fr : list bytes) : WavFile :=
  mkWavFile (cfg_filename cfg) (cfg_channels cfg)
            (get_sample_size (cfg_audio_format cfg)) (cfg_sample_rate cfg)
            (List.concat fr).

Definition saved_line (cfg : Config) : string :=
  "Recording saved to " ++ cfg_filename cfg.

Definition recorder (cfg : Config) (st : option Stream) (fr : list bytes)
    (rec : bool) (last : Q) (d : list WavFile) (out : list string) : World :=
  mkWorld (mkAudioRecorder (cfg_filename cfg) (cfg_channels cfg)
             (cfg_sample_rate cfg) (cfg_chunk_size cfg)
             (cfg_audio_format cfg) st fr rec (cfg_silence_threshold cfg)
             (cfg_silence_duration cfg) last)
          d out.

(** *** Vocabulary of the further properties of the recorder *)

(** From [w] to [w'] the configuration is kept, the buffer has grown by
    [chunks], and at most one file was written, holding the buffer of
    [w']. *)
Definition grows_by (w w' : World) (chunks : list bytes) : Prop :=
  config_of (self w') = config_of (self w) /\
  audio_frames (self w') = audio_frames (self w) ++ chunks /\
  (disk w' = disk w \/
   disk w' =
     disk w ++ [wav_of (config_of (self w)) (audio_frames (self w'))]).

End Audio.

(** ** WebcamImageSender *)

Module Webcam.

(** A grayscale image: a two-dimensional array of unsigned bytes, as its
    rows. *)
Definition Gray : Type := list (list byte).

Definition pixel_value (b : byte) : Z := Z.of_N (Byte.to_N b).

(** The shape of an array, as the lengths of its rows: (h, w) for a
    rectangular one. *)
Definition shape (a : Gray) : list nat := map (@List.length byte) a.

Definition shape_eqb (a b : Gray) : bool :=
  Nat.eqb (List.length a) (List.length b) &&
  forallb (fun p => Nat.eqb (List.length (fst p)) (List.length (snd p)))
          (combine a b).

Definition absdiff_pixel (p q : byte) : Z :=
  Z.abs (pixel_value p - pixel_value q).

Definition absdiff_row (r s : list byte) : list Z :=
  map (fun px => absdiff_pixel (fst px) (snd px)) (combine r s).

Definition absdiff_rows (a b : Gray) : list (list Z) :=
  map (fun rows => absdiff_row (fst rows) (snd rows)) (combine a b).

(** [cv2.absdiff]: element-wise |a - b|; arrays of different sizes are an
    error of the library. *)
Definition absdiff (a b : Gray) : result (list (list Z)) :=
  if shape_eqb a b then Ok (absdiff_rows a b) else Raise Cv2Error.

(** [ndarray.sum()] over all elements.  The library accumulates bytes in a
    machine word that no image held in memory can overflow; the sum is
    taken in Z. *)
Definition ndarray_sum (d : list (list Z)) : Z :=
  fold_left Z.add (map (fun row => fold_left Z.add row 0%Z) d) 0%Z.

Definition pixel_count (a : Gray) : Z :=
  Z.of_nat (List.length (List.concat a)).

(** The attributes of a [WebcamImageSender] ([socketio] is the channel of
    the world below; [capture_thread] is the handle of the worker). *)
Record WebcamImageSender : Type := mkWebcamImageSender {
  last_image : option Gray;
  last_change_time : option Q;
  is_running : bool
}.

(** The sender, the events emitted on its channel (oldest first, as event
    name and payload) and whether the camera handle is held. *)
Record World : Type := mkWorld {
  self : WebcamImageSender;
  emitted : list (string * string);
  camera_open : bool
}.

Definition init : World :=
  mkWorld (mkWebcamImageSender None None false) [] false.

Definition set_is_running (b : bool) (w : World) : World :=
  mkWorld (mkWebcamImageSender (last_image (self w))
             (last_change_time (self w)) b)
          (emitted w) (camera_open w).

Definition set_stable (gray : Gray) (now : Q) (w : World) : World :=
  mkWorld (mkWebcamImageSender (Some gray) (Some now) (is_running (self w)))
          (emitted w) (camera_open w).

Definition emit (event payload : string) (w : World) : World :=
  mkWorld (self w) (emitted w ++ [(event, payload)]) (camera_open w).

Definition set_camera_open (b : bool) (w : World) : World :=
  mkWorld (self w) (emitted w) b.

(** [start_capture], up to the start of the worker thread. *)
Definition start_capture : Py World unit := modify (set_is_running true).

(** [stop_capture], up to the join of the worker thread. *)
Definition stop_capture : Py World unit := modify (set_is_running false).

Definition image_difference (image : Gray) : Py World Z :=
  (w <- get ;;
   match last_image (self w) with
   | None => ret 0%Z
   | Some last =>
       diff <- lift (absdiff image last) ;;
       let diff_sum := ndarray_sum diff in
       ret diff_sum
   end)%py.

Section Capture.

(** The frames of the camera and the library calls applied to them. *)
Variable Frame : Type.
Variable cvtColor_BGR2GRAY : Frame -> Gray.
Variable imencode_jpg : Frame -> list byte.
Variable b64encode : list byte -> list byte.
Variable decode_utf8 : list byte -> string.

(** One pass through the body of the [while] of [capture_image]: [read] is
    the frame returned by [cap.read()], absent when the grab failed, and
    [now] the reading of the clock in that pass. *)
Definition capture_body (read : option Frame) (now : Q) : Py World unit :=
  (frame <- match read with
            | Some frame => ret frame
            | None => raise Cv2Error
            end ;;
   let gray := cvtColor_BGR2GRAY frame in
   w <- get ;;
   changed <- match last_image (self w) with
              | None => ret true
              | Some _ =>
                  d <- image_difference gray ;;
                  ret (2 <? d)%Z
              end ;;
   (if changed : bool then modify (set_stable gray now) else ret tt) ;;;
   let buffer := imencode_jpg frame in
   let image_base64 := b64encode buffer in
   modify (emit "image" (decode_utf8 image_base64)))%py.

Fixpoint capture_loop (input : list (option Frame * Q))
  : Py World LoopStatus :=
  fun w =>
    if is_running (self w) then
      match input with
      | [] => (w, Ok Waiting)
      | (read, now) :: rest =>
          (capture_body read now ;;; capture_loop rest)%py w
      end
    else (modify (set_camera_open false) ;;; ret Exited)%py w.

(** [capture_image] over the frames the camera delivers. *)
Definition capture_image (input : list (option Frame * Q))
  : Py World LoopStatus :=
  (modify (set_camera_open true) ;;; capture_loop input)%py.

(** *** Vocabulary of the properties of the sender *)

(** The event emitted for a frame. *)
Definition image_event (frame : Frame) : string * string :=
  ("image"%string, decode_utf8 (b64encode (imencode_jpg frame))).

(** The frames as successful reads of the camera. *)
Definition reads (frames : list (Frame * Q)) : list (option Frame * Q) :=
  map (fun fq => (Some (fst fq), snd fq)) frames.

End Capture.

(** No stable frame is stored, or the difference of [gray] from the stored
    one is defined and exceeds the constant 2. *)
Definition exceeds_threshold (w : World) (gray : Gray) : bool :=
  match last_image (self w) with
  | None => true
  | Some _ =>
      match image_difference gray w with
      | (_, Ok d) => (2 <? d)%Z
      | (_, Raise _) => false
      end
  end.

(** Every pixel of [a] differs from the pixel of [b] at its place by the
    maximum intensity, 255. *)
Definition maximally_different (a b : Gray) : bool :=
  shape_eqb a b &&
  forallb (fun rows =>
             forallb (fun px => Z.eqb (absdiff_pixel (fst px) (snd px)) 255)
                     (combine (fst rows) (snd rows)))
          (combine a b).

(** The stored stable frame, if any, has the shape [sh]. *)
Definition stable_shape (sh : list nat) (w : World) : Prop :=
  forall last, last_image (self w) = Some last -> shape last = sh.

End Webcam.

(** ** MusicPlayer *)

Module Music.

(** Commands issued to the mixer. *)
Inductive MixerCmd : Type :=
| MixerInit
| MusicLoad (path : string)
| MusicPlay
| MusicPause
| MusicUnpause
| MusicStop.

(** Where the worker thread is in [run]: not yet in it, before the
    load-and-play prologue, at the test of the [while], inside its body, or
    past the loop. *)
Inductive WorkerPC : Type :=
| Unstarted | AtEntry | AtLoopTest | InLoopBody | Finished.

Record MusicPlayer : Type := mkMusicPlayer {
  file_path : string;
  paused : bool;
  stopped : bool
}.

(** The player, its worker and the commands the mixer has received, oldest
    first. *)
Record World : Type := mkWorld {
  self : MusicPlayer;
  pc : WorkerPC;
  mixer : list MixerCmd
}.

Definition init (file_path : string) : World :=
  mkWorld (mkMusicPlayer file_path false false) Unstarted [].

Definition set_paused (b : bool) (w : World) : World :=
  mkWorld (mkMusicPlayer (file_path (self w)) b (stopped (self w)))
          (pc w) (mixer w).

Definition set_stopped (b : bool) (w : World) : World :=
  mkWorld (mkMusicPlayer (file_path (self w)) (paused (self w)) b)
          (pc w) (mixer w).

Definition set_pc (p : WorkerPC) (w : World) : World :=
  mkWorld (self w) p (mixer w).

Definition issue (c : MixerCmd) (w : World) : World :=
  mkWorld (self w) (pc w) (mixer w ++ [c]).

Definition pause (w : World) : World := set_paused true w.

Definition resume (w : World) : World := set_paused false w.

Definition stop (w : World) : World := issue MusicStop (set_stopped true w).

(** [Thread.start]: the worker enters [run]; a thread starts once. *)
Definition start (w : World) : World :=
  match pc w with
  | Unstarted => set_pc AtEntry w
  | _ => w
  end.

(** [run], one step of the worker at a time, so that calls of the
    controlling thread can come in between.  [busy] is what
    [pygame.mixer.music.get_busy()] answers if this step asks. *)
Definition run_step (busy : bool) (w : World) : World :=
  match pc w with
  | Unstarted => w
  | AtEntry =>
      set_pc AtLoopTest
        (issue MusicPlay
           (issue (MusicLoad (file_path (self w))) (issue MixerInit w)))
  | AtLoopTest =>
      if busy && negb (stopped (self w))
      then set_pc InLoopBody w
      else set_pc Finished w
  | InLoopBody =>
      set_pc AtLoopTest
        (if paused (self w) then issue MusicPause w
         else issue MusicUnpause w)
  | Finished => w
  end.

(** [run] as one piece, for a worker that no call interrupts: [busy] lists
    the answers of [get_busy()] at the successive tests of the loop. *)
Fixpoint run_loop (busy : list bool) (w : World) : World * LoopStatus :=
  match busy with
  | [] => (w, Waiting)
  | b :: rest =>
      if b && negb (stopped (self w)) then
        run_loop rest
          (if paused (self w) then issue MusicPause w
           else issue MusicUnpause w)
      else (w, Exited)
  end.

Definition run (busy : list bool) (w : World) : World * LoopStatus :=
  run_loop busy
    (issue MusicPlay
       (issue (MusicLoad (file_path (self w))) (issue MixerInit w))).

(** What happens to a player: calls of the controlling thread and steps of
    the worker. *)
Inductive Action : Type :=
| CallStart
| CallPause
| CallResume
| CallStop
| WorkerStep (busy : bool).

Definition exec (w : World) (a : Action) : World :=
  match a with
  | CallStart => start w
  | CallPause => pause w
  | CallResume => resume w
  | CallStop => stop w
  | WorkerStep busy => run_step busy w
  end.

Definition exec_all (acts : list Action) (w : World) : World :=
  fold_left exec acts w.

Definition is_pause_or_resume (a : Action) : bool :=
  match a with
  | CallPause | CallResume => true
  | _ => false
  end.

Definition is_worker_step (a : Action) : bool :=
  match a with
  | WorkerStep _ => true
  | _ => false
  end.

Definition worker_steps (acts : list Action) : nat :=
  List.length (filter is_worker_step acts).

(** The steps of an uninterrupted worker: a test and a pass of the body for
    each answer of the mixer. *)
Definition passes (busy : list bool) : list Action :=
  flat_map (fun b => [WorkerStep b; WorkerStep b]) busy.

(** *** Vocabulary of the properties of the player *)

(** The worker has started playback: it is in its loop or past it. *)
Definition playback_started (p : WorkerPC) : bool :=
  match p with
  | AtLoopTest | InLoopBody | Finished => true
  | Unstarted | AtEntry => false
  end.

(** Steps the worker takes from [p] to the exit of its loop once [stopped]
    is set: the rest of the pass it is in, and the test. *)
Definition steps_to_exit (p : WorkerPC) : nat :=
  match p with
  | InLoopBody => 2
  | AtLoopTest => 1
  | _ => 0
  end.

(** Mixer commands the worker still issues from [p] once [stopped] is set:
    the one of the pass it is in. *)
Definition commands_left (p : WorkerPC) : nat :=
  match p with
  | InLoopBody => 1
  | _ => 0
  end.

Definition is_pause_or_unpause (c : MixerCmd) : bool :=
  match c with
  | MusicPause | MusicUnpause => true
  | _ => false
  end.

(** *** Vocabulary of the further properties of the player *)

(** What [run] hands the mixer before its loop. *)
Definition prologue (p : MusicPlayer) : list MixerCmd :=
  [MixerInit; MusicLoad (file_path p); MusicPlay].

(** What a pass of the loop hands the mixer. *)
Definition poll_command (p : MusicPlayer) : MixerCmd :=
  if paused p then MusicPause else MusicUnpause.

Definition is_play (c : MixerCmd) : bool :=
  match c with
  | MusicPlay => true
  | _ => false
  end.

Definition is_stop (c : MixerCmd) : bool :=
  match c with
  | MusicStop => true
  | _ => false
  end.

Definition is_call_stop (a : Action) : bool :=
  match a with
  | CallStop => true
  | _ => false
  end.

End Music.

(** * Properties *)

Lemma Qltb_lt (x y : Q) : Qltb x y = true <-> (x < y)%Q.
Proof.
  unfold Qltb. rewrite negb_true_iff. split.
  - intros H. apply Qnot_le_lt. intros Hle.
    apply Qle_bool_iff in Hle. congruence.
  - intros H. destruct (Qle_bool y x) eqn:E; [|reflexivity].
    apply Qle_bool_iff in E. exfalso. exact (Qlt_not_le _ _ H E).
Qed.

Lemma fold_add_shift (l : list Z) (a : Z) :
  fold_left Z.add l a = (a + fold_left Z.add l 0)%Z.
Proof.
  revert a. induction l as [|x l IH]; intros a; simpl.
  - lia.
  - rewrite IH, (IH x). lia.
Qed.

Module AudioProofs.

Import Audio.

(** *** The energy of a chunk *)

Lemma sample_value_range (b : byte) : (0 <= sample_value b <= 255)%Z.
Proof.
  unfold sample_value. pose proof (Byte.to_N_bounded b). lia.
Qed.

Lemma sample_value_zero (b : byte) : sample_value b = 0%Z <-> b = x00.
Proof.
  split.
  - intros H. unfold sample_value in H.
    assert (E : Byte.to_N b = Byte.to_N x00) by (cbn; lia).
    apply (f_equal Byte.of_N) in E.
    rewrite !Byte.of_to_N in E. now injection E.
  - intros ->. reflexivity.
Qed.

Lemma squared_sum_cons (b : byte) (data : bytes) :
  squared_sum (b :: data) = (sample_value b ^ 2 + squared_sum data)%Z.
Proof.
  unfold squared_sum, py_sum. simpl. now rewrite fold_add_shift.
Qed.

Lemma squared_sum_nonneg (data : bytes) : (0 <= squared_sum data)%Z.
Proof.
  induction data as [|b data IH].
  - reflexivity.
  - rewrite squared_sum_cons. pose proof (sample_value_range b). nia.
Qed.

Lemma squared_sum_zero (data : bytes) :
  squared_sum data = 0%Z <-> all_zero data = true.
Proof.
  induction data as [|b data IH].
  - split; reflexivity.
  - rewrite squared_sum_cons. simpl.
    rewrite andb_true_iff, Z.eqb_eq, <- IH.
    pose proof (sample_value_range b).
    pose proof (squared_sum_nonneg data). nia.
Qed.

Lemma calculate_rms_nonempty (data : bytes) :
  nonempty data = true ->
  exists n, Z.of_nat (List.length data) = Zpos n /\
            _calculate_rms data = Ok (SqrtOf (squared_sum data # n)).
Proof.
  destruct data as [|b data]; [discriminate|]. intros _.
  unfold _calculate_rms.
  destruct (Z.of_nat (List.length (b :: data))) as [|n|n] eqn:E.
  - simpl in E. lia.
  - exists n. split; reflexivity.
  - lia.
Qed.

Lemma Q2R_frac (a : Z) (n : positive) :
  Q2R (a # n) = (IZR a / IZR (Zpos n))%R.
Proof. reflexivity. Qed.

Lemma radicand_nonneg (a : Z) (n : positive) :
  (0 <= a)%Z -> (0 <= Q2R (a # n))%R.
Proof.
  intros H. rewrite Q2R_frac.
  apply Rmult_le_pos.
  - now apply IZR_le.
  - left. apply Rinv_0_lt_compat. now apply IZR_lt.
Qed.

(** The boolean comparison of a root with a rational decides the comparison
    of the real numbers they denote. *)
Lemma rms_ltb_spec (r : Rms) (t : Q) :
  (0 <= Q2R (radicand r))%R ->
  rms_ltb r t = true <-> (rms_value r < Q2R t)%R.
Proof.
  intros Hx. unfold rms_ltb, rms_value.
  rewrite andb_true_iff, !Qltb_lt.
  pose proof (sqrt_pos (Q2R (radicand r))) as Hs.
  split.
  - intros [Ht Hlt].
    apply Qlt_Rlt in Ht, Hlt. rewrite Q2R_mult in Hlt.
    replace (Q2R 0) with 0%R in Ht by (unfold Q2R; simpl; lra).
    rewrite <- (sqrt_square (Q2R t)) by lra.
    apply sqrt_lt_1; [exact Hx | nra | exact Hlt].
  - intros Hlt.
    assert (Ht : (0 < Q2R t)%R) by lra.
    split.
    + apply Rlt_Qlt. replace (Q2R 0) with 0%R by (unfold Q2R; simpl; lra).
      exact Ht.
    + apply Rlt_Qlt. rewrite Q2R_mult.
      rewrite <- (sqrt_sqrt (Q2R (radicand r))) by exact Hx.
      nra.
Qed.

Lemma rms_value_zero (a : Z) (n : positive) :
  (0 <= a)%Z -> rms_value (SqrtOf (a # n)) = 0%R <-> a = 0%Z.
Proof.
  intros Ha. unfold rms_value. simpl. split.
  - intros H. apply sqrt_eq_0 in H; [|now apply radicand_nonneg].
    rewrite Q2R_frac in H.
    assert (Hn : (0 < IZR (Zpos n))%R) by now apply IZR_lt.
    apply eq_IZR.
    apply (Rmult_eq_compat_r (IZR (Zpos n))) in H.
    unfold Rdiv in H. rewrite Rmult_assoc, Rinv_l, Rmult_1_r, Rmult_0_l in H
      by lra.
    exact H.
  - intros ->. rewrite Q2R_frac. unfold Rdiv. rewrite Rmult_0_l.
    apply sqrt_0.
Qed.

(** With the default threshold a chunk of [n] bytes is silent exactly when
    its sum of squares is below [n / 10000]. *)
Lemma silent_default (data : bytes) (n : positive) :
  Z.of_nat (List.length data) = Zpos n ->
  silent (1 # 100) data = true <-> (squared_sum data * 10000 < Zpos n)%Z.
Proof.
  intros E. unfold silent, _calculate_rms. rewrite E.
  unfold rms_ltb. rewrite andb_true_iff, !Qltb_lt. simpl radicand.
  unfold Qlt. simpl. split.
  - intros [_ H]. lia.
  - intros H. split; lia.
Qed.

(** C10: [_calculate_rms] divides by the length of the chunk without a
    guard.  On the empty chunk it raises ZeroDivisionError; on a non-empty
    chunk it returns the root of the mean of the squares, and no chunk makes
    it raise anything but that one error, which only the empty chunk
    triggers. *)
Theorem C10_calculate_rms_division (data : bytes) :
  (data = [] -> _calculate_rms data = Raise ZeroDivisionError) /\
  (data <> [] ->
   exists n, Z.of_nat (List.length data) = Zpos n /\
             _calculate_rms data = Ok (SqrtOf (squared_sum data # n))) /\
  (forall e, _calculate_rms data = Raise e ->
             data = [] /\ e = ZeroDivisionError).
Proof.
  split; [|split].
  - intros ->. reflexivity.
  - intros Hne. apply calculate_rms_nonempty.
    destruct data; [contradiction|reflexivity].
  - intros e He. destruct data as [|b data].
    + split; [reflexivity|]. now injection He.
    + destruct (@calculate_rms_nonempty (b :: data) eq_refl) as (n & _ & E).
      rewrite E in He. discriminate.
Qed.

Lemma C10_calculate_rms_division_witness :
  _calculate_rms [] = Raise ZeroDivisionError /\
  exists n, Z.of_nat (List.length ["003"%byte; "004"%byte]) = Zpos n /\
            _calculate_rms ["003"%byte; "004"%byte] =
            Ok (SqrtOf (squared_sum ["003"%byte; "004"%byte] # n)).
Proof.
  split.
  - apply (proj1 (C10_calculate_rms_division [])). reflexivity.
  - apply (proj1 (proj2 (C10_calculate_rms_division
                           ["003"%byte; "004"%byte]))).
    discriminate.
Defined.

(** A chunk of 16384 bytes (8192 mono 16-bit frames), the first byte 1 and
    the others 0: its energy is below the default threshold although one of
    its bytes is not zero, so with the default threshold "silent" does not
    mean "all bytes zero". *)
Lemma C9_long_chunk_silent_not_zero :
  nonempty ("001"%byte :: repeat "000"%byte (Z.to_nat 16383)) = true /\
  ~ (silent (1 # 100) ("001"%byte :: repeat "000"%byte (Z.to_nat 16383))
     = true <->
     all_zero ("001"%byte :: repeat "000"%byte (Z.to_nat 16383)) = true).
Proof.
  split; [reflexivity|].
  assert (Hs : silent (1 # 100)
                 ("001"%byte :: repeat "000"%byte (Z.to_nat 16383)) = true)
    by (vm_compute; reflexivity).
  intros [H _]. specialize (H Hs). discriminate H.
Qed.

(** C9 (amended): for every non-empty chunk [_calculate_rms] works on the
    unsigned byte values: its result is a non-negative real, it is 0 exactly
    when every byte is 0, the test of [_record] against a threshold is the
    comparison of reals, and with the default threshold 0.01 a chunk of at
    most 10000 bytes is silent exactly when all its bytes are zero. *)
Theorem C9_rms_of_raw_bytes (data : bytes) :
  nonempty data = true ->
  exists rms,
    _calculate_rms data = Ok rms /\
    (0 <= rms_value rms)%R /\
    (rms_value rms = 0%R <-> all_zero data = true) /\
    (forall t, rms_ltb rms t = true <-> (rms_value rms < Q2R t)%R) /\
    ((Z.of_nat (List.length data) <= 10000)%Z ->
     (silent (1 # 100) data = true <-> all_zero data = true)).
Proof.
  intros Hne.
  destruct (calculate_rms_nonempty data Hne) as (n & Hn & E).
  pose proof (squared_sum_nonneg data) as Hss.
  exists (SqrtOf (squared_sum data # n)). split; [exact E|].
  split; [apply sqrt_pos|].
  split; [rewrite rms_value_zero by exact Hss; apply squared_sum_zero|].
  split.
  - intros t. apply rms_ltb_spec. simpl. now apply radicand_nonneg.
  - intros Hlen. rewrite (silent_default data Hn), <- squared_sum_zero.
    lia.
Qed.

Lemma C9_rms_of_raw_bytes_witness :
  exists rms,
    _calculate_rms ["000"%byte; "007"%byte] = Ok rms /\
    (0 <= rms_value rms)%R /\
    (rms_value rms = 0%R <-> all_zero ["000"%byte; "007"%byte] = true) /\
    (forall t, rms_ltb rms t = true <-> (rms_value rms < Q2R t)%R) /\
    ((Z.of_nat (List.length ["000"%byte; "007"%byte]) <= 10000)%Z ->
     (silent (1 # 100) ["000"%byte; "007"%byte] = true <->
      all_zero ["000"%byte; "007"%byte] = true)).
Proof.
  apply (C9_rms_of_raw_bytes ["000"%byte; "007"%byte]). reflexivity.
Defined.

(** *** The recording loop *)

Lemma world_eta (w : World) :
  w = recorder (config_of (self w)) (audio_stream (self w))
        (audio_frames (self w)) (is_recording (self w))
        (last_sound_time (self w)) (disk w) (stdout w).
Proof. destruct w as [[] ? ?]. reflexivity. Qed.

Section Recorder.

Variable cfg : Config.


Lemma stop_recording_open (s : Stream) fr rec last d out :
  s <> StreamClosed ->
  stop_recording (recorder cfg (Some s) fr rec last d out) =
  (recorder cfg (Some StreamClosed) fr false last (d ++ [wav_of cfg fr])
       (out ++ [saved_line cfg]), Ok tt).
Proof.
  intros Hs. destruct s; [reflexivity | reflexivity | contradiction].
Qed.

Lemma stop_recording_closed fr rec last d out :
  stop_recording (recorder cfg (Some StreamClosed) fr rec last d out) =
  (recorder cfg (Some StreamClosed) fr false last d out, Raise StreamError).
Proof. reflexivity. Qed.

Lemma record_body_nonempty data now s fr rec last d out :
  nonempty data = true ->
  _record_body data now (recorder cfg (Some s) fr rec last d out) =
  if silent (cfg_silence_threshold cfg) data then
    if Qle_bool (cfg_silence_duration cfg) (now - last)
    then stop_recording (recorder cfg (Some s) (fr ++ [data]) rec last d out)
    else (recorder cfg (Some s) (fr ++ [data]) rec last d out, Ok tt)
  else (recorder cfg (Some s) (fr ++ [data]) rec now d out, Ok tt).
Proof.
  intros Hne. destruct (calculate_rms_nonempty data Hne) as (n & _ & E).
  unfold silent, _record_body, stream_read, bind, modify, lift, get, ret.
  cbn [self recorder audio_stream]. rewrite E.
  cbn [append_frame self recorder audio_frames silence_threshold
       silence_duration last_sound_time filename channels sample_rate
       chunk_size audio_format audio_stream is_recording disk stdout].
  destruct (rms_ltb _ (cfg_silence_threshold cfg)); [|reflexivity].
  destruct (Qle_bool (cfg_silence_duration cfg) (now - last)); reflexivity.
Qed.

Lemma record_not_recording input st fr last d out :
  _record input (recorder cfg st fr false last d out) =
  (recorder cfg st fr false last d out, Ok Exited).
Proof. destruct input; reflexivity. Qed.

Lemma record_cons data now rest st fr last d out :
  _record ((data, now) :: rest) (recorder cfg st fr true last d out) =
  match _record_body data now (recorder cfg st fr true last d out) with
  | (w', Ok _) => _record rest w'
  | (w', Raise e) => (w', Raise e)
  end.
Proof. reflexivity. Qed.

Lemma firstn_map_snoc (data : bytes) (now : Q) (rest : list (bytes * Q))
    (fr : list bytes) (n : nat) :
  (fr ++ [data]) ++ map fst (firstn n rest) =
  fr ++ map fst (firstn (S n) ((data, now) :: rest)).
Proof. simpl. now rewrite <- app_assoc. Qed.

(** The loop on an input whose chunk [k] completes a sustained silence:
    after some [n <= k + 1] chunks the worker is in [stop_recording] with
    those chunks buffered, and leaves the loop when it returns. *)
Lemma record_self_stops (k : nat) :
  forall input fr last d out,
    (forall e, In e (firstn (S k) input) -> nonempty (fst e) = true) ->
    silence_sustained (cfg_silence_threshold cfg) (cfg_silence_duration cfg) last input k = true ->
    exists n last',
      (0 < n <= S k)%nat /\
      _record input (recorder cfg (Some StreamActive) fr true last d out) =
      (fst (stop_recording
              (recorder cfg (Some StreamActive) (fr ++ map fst (firstn n input)) true
                   last' d out)),
       Ok Exited).
Proof.
  induction k as [|k IH]; intros input fr last d out Hne Hsil;
    unfold silence_sustained in Hsil;
    destruct input as [|[data now] rest]; try discriminate.
  - (* the first chunk completes the silence *)
    simpl in Hsil. apply andb_true_iff in Hsil as [Hs Hd].
    assert (Hd0 : nonempty data = true) by (apply (Hne (data, now)); now left).
    exists 1%nat, last. split; [lia|].
    rewrite record_cons, record_body_nonempty, Hs, Hd by exact Hd0.
    simpl firstn. simpl map.
    rewrite stop_recording_open by discriminate.
    now rewrite record_not_recording.
  - assert (Hd0 : nonempty data = true) by (apply (Hne (data, now)); now left).
    assert (Hne' : forall e, In e (firstn (S k) rest) ->
                             nonempty (fst e) = true).
    { intros e He. apply Hne. right. exact He. }
    rewrite record_cons, record_body_nonempty by exact Hd0.
    simpl nth_error in Hsil.
    change (firstn (S k) ((data, now) :: rest))
      with ((data, now) :: firstn k rest) in Hsil.
    unfold last_sound in Hsil. simpl fold_left in Hsil.
    fold (last_sound (cfg_silence_threshold cfg) (if silent (cfg_silence_threshold cfg) data then last else now)
            (firstn k rest)) in Hsil.
    destruct (silent (cfg_silence_threshold cfg) data) eqn:Hs.
    + destruct (Qle_bool (cfg_silence_duration cfg) (now - last)) eqn:Hd.
      * (* an earlier chunk already completes a silence *)
        exists 1%nat, last. split; [lia|].
        simpl firstn. simpl map.
        rewrite stop_recording_open by discriminate.
        now rewrite record_not_recording.
      * destruct (IH rest (fr ++ [data]) last d out Hne') as (n & l' & Hn & E).
        { unfold silence_sustained. exact Hsil. }
        exists (S n), l'. split; [lia|].
        now rewrite <- (firstn_map_snoc data now rest fr n).
    + destruct (IH rest (fr ++ [data]) now d out Hne') as (n & l' & Hn & E).
      { unfold silence_sustained. exact Hsil. }
      exists (S n), l'. split; [lia|].
      now rewrite <- (firstn_map_snoc data now rest fr n).
Qed.

(** The loop on chunks that are all at or above the threshold. *)
Lemma record_all_loud :
  forall input s fr last d out,
    forallb (fun e => loud (cfg_silence_threshold cfg) (fst e)) input
    = true ->
    _record input (recorder cfg (Some s) fr true last d out) =
    (recorder cfg (Some s) (fr ++ map fst input) true
       (last_sound (cfg_silence_threshold cfg) last input) d out,
     Ok Waiting).
Proof.
  induction input as [|[data now] rest IH]; intros s fr last d out Hl.
  - simpl. now rewrite app_nil_r.
  - simpl in Hl. apply andb_true_iff in Hl as [Hd Hrest].
    assert (Hne : nonempty data = true).
    { destruct data; [discriminate Hd | reflexivity]. }
    assert (Hs : silent (cfg_silence_threshold cfg) data = false).
    { unfold loud in Hd. unfold silent.
      destruct (_calculate_rms data); [|discriminate].
      now apply negb_true_iff in Hd. }
    rewrite record_cons, record_body_nonempty by exact Hne.
    unfold last_sound. simpl fold_left. rewrite Hs.
    rewrite IH by exact Hrest.
    simpl map. now rewrite <- app_assoc.
Qed.

Lemma stop_recording_clears_flag st fr rec last d out :
  is_recording (self (fst (stop_recording
                             (recorder cfg st fr rec last d out)))) = false.
Proof. destruct st as [[| |]|]; reflexivity. Qed.

End Recorder.

Lemma record_after_stop (w : World) (input : list (bytes * Q)) :
  _record input (fst (stop_recording w)) =
  (fst (stop_recording w), Ok Exited).
Proof.
  pose proof (stop_recording_clears_flag (config_of (self w))
                (audio_stream (self w)) (audio_frames (self w))
                (is_recording (self w)) (last_sound_time (self w))
                (disk w) (stdout w)) as H.
  rewrite <- world_eta in H.
  destruct input as [|[data now] rest]; simpl; now rewrite H.
Qed.

(** C1: when the chunks read by the worker contain a chunk [k] whose energy
    is below the threshold, [silence_duration] seconds or more after the
    last chunk that was not below it (or after the construction of the
    recorder when there is none), the worker leaves its loop through its own
    call of [stop_recording]: that call is made with the first [n] chunks
    buffered, for some [n] up to [k + 1], it closes the stream, and it
    writes exactly one file, which holds these chunks concatenated in the
    order they were read. *)
Theorem C1_self_stop_on_sustained_silence
    (w : World) (input : list (bytes * Q)) (k : nat) :
  is_recording (self w) = true ->
  audio_stream (self w) = Some StreamActive ->
  (forall e, In e (firstn (S k) input) -> nonempty (fst e) = true) ->
  silence_sustained (silence_threshold (self w)) (silence_duration (self w))
    (last_sound_time (self w)) input k = true ->
  exists (n : nat) (w0 w' : World),
    (0 < n <= S k)%nat /\
    _record input w = (w', Ok Exited) /\
    stop_recording w0 = (w', Ok tt) /\
    is_recording (self w0) = true /\
    audio_frames (self w0) =
      audio_frames (self w) ++ map fst (firstn n input) /\
    disk w0 = disk w /\
    is_recording (self w') = false /\
    audio_stream (self w') = Some StreamClosed /\
    audio_frames (self w') =
      audio_frames (self w) ++ map fst (firstn n input) /\
    disk w' =
      disk w ++ [wav_of (config_of (self w))
                   (audio_frames (self w) ++ map fst (firstn n input))] /\
    stdout w' = stdout w ++ [saved_line (config_of (self w))].
Proof.
  intros Hrec Hst Hne Hsil.
  pose proof (world_eta w) as Hw. rewrite Hrec, Hst in Hw.
  destruct (record_self_stops (config_of (self w)) k input
              (audio_frames (self w)) (last_sound_time (self w)) (disk w)
              (stdout w) Hne Hsil)
    as (n & last' & Hn & E).
  rewrite <- Hw in E.
  rewrite stop_recording_open in E by discriminate. simpl fst in E.
  exists n.
  exists (recorder (config_of (self w)) (Some StreamActive)
            (audio_frames (self w) ++ map fst (firstn n input)) true last'
            (disk w) (stdout w)).
  eexists. split; [exact Hn|]. split; [exact E|].
  split; [now rewrite stop_recording_open by discriminate|].
  repeat split.
Qed.

Lemma C1_self_stop_on_sustained_silence_witness :
  let w := fst (start_recording
                  (init 0 "out.wav" 1 44100 1 (1 # 100) 2)) in
  let input := [(["020"%byte; "020"%byte], 1%Q);
                (["000"%byte; "000"%byte], 2%Q);
                (["000"%byte; "000"%byte], 7 # 2)] in
  exists w', _record input w = (w', Ok Exited) /\
             List.length (disk w') = 1%nat.
Proof.
  intros w input.
  destruct (@C1_self_stop_on_sustained_silence w input 2)
    as (n & w0 & w' & _ & E & _ & _ & _ & _ & _ & _ & _ & Hd & _).
  - reflexivity.
  - reflexivity.
  - intros e [<-|[<-|[<-|[]]]]; reflexivity.
  - vm_compute. reflexivity.
  - exists w'. split; [exact E|]. rewrite Hd. reflexivity.
Defined.

(** C2: when every chunk read by the worker has an energy at or above the
    threshold, the worker never calls [stop_recording]: after any number of
    such chunks it is still in its loop with the recording flag set, the
    stream untouched, no file written and nothing printed, and every chunk
    buffered.  A call of [stop_recording] from outside then ends the loop:
    whatever that call returns, the worker exits at its next test. *)
Theorem C2_no_self_stop_while_loud
    (w : World) (input : list (bytes * Q)) :
  is_recording (self w) = true ->
  audio_stream (self w) = Some StreamActive ->
  forallb (fun e => loud (silence_threshold (self w)) (fst e)) input = true ->
  exists w' : World,
    _record input w = (w', Ok Waiting) /\
    is_recording (self w') = true /\
    audio_stream (self w') = audio_stream (self w) /\
    audio_frames (self w') = audio_frames (self w) ++ map fst input /\
    disk w' = disk w /\
    stdout w' = stdout w /\
    forall more,
      _record more (fst (stop_recording w')) =
      (fst (stop_recording w'), Ok Exited).
Proof.
  intros Hrec Hst Hl.
  pose proof (world_eta w) as Hw. rewrite Hrec, Hst in Hw.
  pose proof (record_all_loud (config_of (self w)) input
                StreamActive (audio_frames (self w))
                (last_sound_time (self w)) (disk w) (stdout w) Hl) as E.
  rewrite <- Hw in E.
  eexists. split; [exact E|].
  repeat split; [now rewrite Hst|]. intros more. apply record_after_stop.
Qed.

Lemma C2_no_self_stop_while_loud_witness :
  let w := fst (start_recording
                  (init 0 "out.wav" 1 44100 1 (1 # 100) 2)) in
  let input := [(["020"%byte; "020"%byte], 1%Q);
                (["000"%byte; "001"%byte], 5%Q);
                (["255"%byte; "128"%byte], 9%Q)] in
  exists w', _record input w = (w', Ok Waiting) /\
             is_recording (self w') = true /\ disk w' = [].
Proof.
  intros w input.
  destruct (@C2_no_self_stop_while_loud w input)
    as (w' & E & Hr & _ & _ & Hd & _).
  - reflexivity.
  - reflexivity.
  - vm_compute. reflexivity.
  - exists w'. split; [exact E|]. split; [exact Hr|]. exact Hd.
Defined.



End AudioProofs.

Module WebcamProofs.

Import Webcam.

(** *** The difference of two images *)

Lemma pixel_value_range (b : byte) : (0 <= pixel_value b <= 255)%Z.
Proof.
  unfold pixel_value. pose proof (Byte.to_N_bounded b). lia.
Qed.

Lemma absdiff_pixel_range (p q : byte) : (0 <= absdiff_pixel p q <= 255)%Z.
Proof.
  unfold absdiff_pixel.
  pose proof (pixel_value_range p). pose proof (pixel_value_range q). lia.
Qed.

Lemma absdiff_pixel_self (p : byte) : absdiff_pixel p p = 0%Z.
Proof. unfold absdiff_pixel. lia. Qed.

Lemma shape_eqb_cons (r s : list byte) (a b : Gray) :
  shape_eqb (r :: a) (s :: b) =
  Nat.eqb (List.length r) (List.length s) && shape_eqb a b.
Proof.
  unfold shape_eqb. simpl.
  destruct (Nat.eqb (List.length a) (List.length b));
    destruct (Nat.eqb (List.length r) (List.length s)); reflexivity.
Qed.

Lemma shape_eqb_eq (a b : Gray) : shape_eqb a b = true <-> shape a = shape b.
Proof.
  revert b. induction a as [|r a IH]; intros [|s b];
    try (split; [reflexivity | reflexivity]);
    try (split; discriminate).
  rewrite shape_eqb_cons, andb_true_iff, Nat.eqb_eq, IH. simpl.
  split.
  - intros [-> ->]. reflexivity.
  - intros H. injection H as H1 H2. now split.
Qed.

Lemma shape_eqb_refl (a : Gray) : shape_eqb a a = true.
Proof. now apply shape_eqb_eq. Qed.

Lemma ndarray_sum_cons (row : list Z) (d : list (list Z)) :
  ndarray_sum (row :: d) = (fold_left Z.add row 0 + ndarray_sum d)%Z.
Proof. unfold ndarray_sum. simpl. now rewrite fold_add_shift. Qed.

Lemma pixel_count_cons (r : list byte) (a : Gray) :
  pixel_count (r :: a) = (Z.of_nat (List.length r) + pixel_count a)%Z.
Proof. unfold pixel_count. simpl. rewrite length_app. lia. Qed.

Lemma row_sum_cons (x : Z) (l : list Z) :
  fold_left Z.add (x :: l) 0%Z = (x + fold_left Z.add l 0)%Z.
Proof. simpl. now rewrite fold_add_shift. Qed.

Lemma row_self (r : list byte) : fold_left Z.add (absdiff_row r r) 0%Z = 0%Z.
Proof.
  induction r as [|p r IH]; [reflexivity|].
  unfold absdiff_row in *. simpl combine. simpl map.
  rewrite row_sum_cons, IH, absdiff_pixel_self. reflexivity.
Qed.

Lemma row_bounds (r : list byte) :
  forall s, List.length r = List.length s ->
    (0 <= fold_left Z.add (absdiff_row r s) 0 <=
     255 * Z.of_nat (List.length r))%Z.
Proof.
  induction r as [|p r IH]; intros [|q s] Hlen; try discriminate.
  - simpl. lia.
  - unfold absdiff_row in *. simpl combine. simpl map.
    rewrite row_sum_cons. simpl fst. simpl snd.
    injection Hlen as Hlen. specialize (IH s Hlen).
    pose proof (absdiff_pixel_range p q).
    simpl List.length. lia.
Qed.

Lemma row_max (r : list byte) :
  forall s, List.length r = List.length s ->
    forallb (fun px => Z.eqb (absdiff_pixel (fst px) (snd px)) 255)
            (combine r s) = true ->
    fold_left Z.add (absdiff_row r s) 0%Z =
    (255 * Z.of_nat (List.length r))%Z.
Proof.
  induction r as [|p r IH]; intros [|q s] Hlen Hmax; try discriminate.
  - reflexivity.
  - unfold absdiff_row in *. simpl combine in *. simpl map.
    rewrite row_sum_cons. simpl fst. simpl snd.
    simpl in Hmax. apply andb_true_iff in Hmax as [Hp Hrest].
    apply Z.eqb_eq in Hp.
    injection Hlen as Hlen. rewrite (IH s Hlen Hrest), Hp.
    simpl List.length. lia.
Qed.

Lemma diff_self (a : Gray) : ndarray_sum (absdiff_rows a a) = 0%Z.
Proof.
  induction a as [|r a IH]; [reflexivity|].
  unfold absdiff_rows in *. simpl combine. simpl map.
  rewrite ndarray_sum_cons, IH. simpl fst. simpl snd.
  now rewrite row_self.
Qed.

Lemma diff_bounds (a : Gray) :
  forall b, shape_eqb a b = true ->
    (0 <= ndarray_sum (absdiff_rows a b) <= 255 * pixel_count a)%Z.
Proof.
  induction a as [|r a IH]; intros [|s b] Hsh; try discriminate.
  - unfold ndarray_sum, pixel_count. simpl. lia.
  - rewrite shape_eqb_cons in Hsh. apply andb_true_iff in Hsh as [Hr Ha].
    apply Nat.eqb_eq in Hr.
    unfold absdiff_rows in *. simpl combine. simpl map.
    rewrite ndarray_sum_cons, pixel_count_cons. simpl fst. simpl snd.
    specialize (IH b Ha). pose proof (row_bounds r s Hr). lia.
Qed.

Lemma diff_max (a : Gray) :
  forall b, maximally_different a b = true ->
    ndarray_sum (absdiff_rows a b) = (255 * pixel_count a)%Z.
Proof.
  unfold maximally_different.
  induction a as [|r a IH]; intros [|s b] Hmax;
    apply andb_true_iff in Hmax as [Hsh Hmax]; try discriminate.
  - reflexivity.
  - rewrite shape_eqb_cons in Hsh. apply andb_true_iff in Hsh as [Hr Ha].
    apply Nat.eqb_eq in Hr.
    simpl in Hmax. apply andb_true_iff in Hmax as [Hrow Hrest].
    unfold absdiff_rows in *. simpl combine. simpl map.
    rewrite ndarray_sum_cons, pixel_count_cons. simpl fst. simpl snd.
    rewrite (row_max r s Hr Hrow), IH; [lia|].
    now rewrite Ha, Hrest.
Qed.

Lemma image_difference_some (w : World) (image last : Gray) :
  last_image (self w) = Some last ->
  image_difference image w =
  if shape_eqb image last
  then (w, Ok (ndarray_sum (absdiff_rows image last)))
  else (w, Raise Cv2Error).
Proof.
  intros H. unfold image_difference, bind, get, lift, absdiff. rewrite H.
  destruct (shape_eqb image last); reflexivity.
Qed.

(** C6: against the stored stable frame, [image_difference] of the same
    image is 0, and of an image of which every pixel differs from the stored
    one by 255 it is 255 times the number of pixels, which no image of that
    shape exceeds. *)
Theorem C6_image_difference_extremes (w : World) (image last : Gray) :
  last_image (self w) = Some last ->
  (image = last -> image_difference image w = (w, Ok 0%Z)) /\
  (maximally_different image last = true ->
   image_difference image w = (w, Ok (255 * pixel_count image)%Z)) /\
  (shape_eqb image last = true ->
   exists d, image_difference image w = (w, Ok d) /\
             (0 <= d <= 255 * pixel_count image)%Z).
Proof.
  intros Hlast. rewrite (image_difference_some w image Hlast).
  split; [|split].
  - intros ->. now rewrite shape_eqb_refl, diff_self.
  - intros Hmax. rewrite (diff_max image last Hmax).
    unfold maximally_different in Hmax.
    apply andb_true_iff in Hmax as [-> _]. reflexivity.
  - intros Hsh. rewrite Hsh. eexists. split; [reflexivity|].
    now apply diff_bounds.
Qed.

Lemma C6_image_difference_extremes_witness :
  let black := [["000"%byte; "000"%byte]; ["000"%byte; "000"%byte]] in
  let white := [["255"%byte; "255"%byte]; ["255"%byte; "255"%byte]] in
  let w := mkWorld (mkWebcamImageSender (Some black) (Some 0%Q) true)
             [] true in
  image_difference black w = (w, Ok 0%Z) /\
  image_difference white w = (w, Ok 1020%Z).
Proof.
  intros black white w. split.
  - apply (proj1 (@C6_image_difference_extremes w black black eq_refl)).
    reflexivity.
  - apply (proj1 (proj2
                    (@C6_image_difference_extremes w white black eq_refl))).
    reflexivity.
Defined.

(** *** The capture loop *)

Section Capture.

Variable Frame : Type.
Variable cvtColor_BGR2GRAY : Frame -> Gray.
Variable imencode_jpg : Frame -> list byte.
Variable b64encode : list byte -> list byte.
Variable decode_utf8 : list byte -> string.

Lemma exceeds_threshold_some (w : World) (gray last : Gray) :
  last_image (self w) = Some last ->
  shape_eqb gray last = true ->
  exceeds_threshold w gray = (2 <? ndarray_sum (absdiff_rows gray last))%Z.
Proof.
  intros Hlast Hsh. unfold exceeds_threshold.
  rewrite (image_difference_some w gray Hlast), Hlast, Hsh. reflexivity.
Qed.

(** A pass of the loop on a frame that was read. *)
Lemma capture_body_cases (w : World) (frame : Frame) (now : Q) :
  capture_body cvtColor_BGR2GRAY imencode_jpg b64encode decode_utf8
    (Some frame) now w =
  match last_image (self w) with
  | Some last =>
      if shape_eqb (cvtColor_BGR2GRAY frame) last
      then (emit "image" (decode_utf8 (b64encode (imencode_jpg frame)))
              (if exceeds_threshold w (cvtColor_BGR2GRAY frame)
               then set_stable (cvtColor_BGR2GRAY frame) now w
               else w),
            Ok tt)
      else (w, Raise Cv2Error)
  | None =>
      (emit "image" (decode_utf8 (b64encode (imencode_jpg frame)))
         (set_stable (cvtColor_BGR2GRAY frame) now w),
       Ok tt)
  end.
Proof.
  unfold capture_body, bind, get, ret, modify.
  destruct (last_image (self w)) as [last|] eqn:Hlast; [|reflexivity].
  rewrite (image_difference_some w _ Hlast).
  destruct (shape_eqb (cvtColor_BGR2GRAY frame) last) eqn:Hsh;
    [|reflexivity].
  rewrite (exceeds_threshold_some w _ Hlast Hsh).
  destruct (2 <? _)%Z; reflexivity.
Qed.

(** A pass of the loop on a frame whose shape is that of the stored stable
    frame, if there is one. *)
Lemma capture_body_read (w : World) (frame : Frame) (now : Q) :
  (forall last, last_image (self w) = Some last ->
                shape_eqb (cvtColor_BGR2GRAY frame) last = true) ->
  capture_body cvtColor_BGR2GRAY imencode_jpg b64encode decode_utf8
    (Some frame) now w =
  (emit "image" (decode_utf8 (b64encode (imencode_jpg frame)))
     (if exceeds_threshold w (cvtColor_BGR2GRAY frame)
      then set_stable (cvtColor_BGR2GRAY frame) now w
      else w),
   Ok tt).
Proof.
  intros Hsh. rewrite capture_body_cases.
  destruct (last_image (self w)) as [last|] eqn:Hlast.
  - now rewrite (Hsh last eq_refl).
  - unfold exceeds_threshold. rewrite Hlast. reflexivity.
Qed.

(** A pass of the loop in terms of [exceeds_threshold]: the stable frame
    and the last-change time are replaced when it holds and kept when it
    does not. *)
Lemma capture_body_stable (w : World) (frame : Frame) (now : Q) :
  let gray := cvtColor_BGR2GRAY frame in
  let pass := capture_body cvtColor_BGR2GRAY imencode_jpg b64encode
                decode_utf8 (Some frame) now w in
  (exceeds_threshold w gray = true <->
   last_image (self w) = None \/
   exists last d,
     last_image (self w) = Some last /\
     image_difference gray w = (w, Ok d) /\
     (2 < d)%Z) /\
  (exceeds_threshold w gray = true ->
   snd pass = Ok tt /\
   last_image (self (fst pass)) = Some gray /\
   last_change_time (self (fst pass)) = Some now) /\
  (exceeds_threshold w gray = false ->
   last_image (self (fst pass)) = last_image (self w) /\
   last_change_time (self (fst pass)) = last_change_time (self w)) /\
  ((forall last, last_image (self w) = Some last ->
                 shape_eqb gray last = true) ->
   snd pass = Ok tt).
Proof.
  intros gray pass. subst pass. rewrite capture_body_cases. fold gray.
  destruct (last_image (self w)) as [last|] eqn:Hlast.
  - rewrite (image_difference_some w gray Hlast).
    destruct (shape_eqb gray last) eqn:Hsh.
    + rewrite (exceeds_threshold_some w gray Hlast Hsh), Z.ltb_lt.
      split; [|split; [|split]].
      * split.
        -- intros Hd. right. exists last. eexists.
           split; [reflexivity|]. split; [reflexivity|exact Hd].
        -- intros [Hn | (l & d & Hl & Hd & Hlt)]; [discriminate|].
           injection Hd as <-. exact Hlt.
      * intros Hd. apply Z.ltb_lt in Hd. rewrite Hd. repeat split.
      * intros Hd. rewrite Hd. simpl. rewrite Hlast. split; reflexivity.
      * reflexivity.
    + assert (Hex : exceeds_threshold w gray = false).
      { unfold exceeds_threshold.
        rewrite (image_difference_some w gray Hlast), Hlast, Hsh.
        reflexivity. }
      rewrite Hex. split; [|split; [|split]].
      * split; [discriminate|].
        intros [Hn | (l & d & Hl & Hd & Hlt)]; discriminate.
      * discriminate.
      * intros _. simpl. rewrite Hlast. split; reflexivity.
      * intros H. specialize (H last eq_refl). congruence.
  - assert (Hex : exceeds_threshold w gray = true).
    { unfold exceeds_threshold. now rewrite Hlast. }
    rewrite Hex. split; [|split; [|split]].
    + split; [now left | reflexivity].
    + intros _. repeat split.
    + discriminate.
    + reflexivity.
Qed.

(** C7: a pass of the worker's loop replaces the stored stable frame by the
    current grayscale frame, and the last-change time by the time of the
    pass, exactly when no stable frame is stored or the sum over all pixels
    of the absolute differences between the current grayscale frame and the
    stored one exceeds the constant 2; when that sum is at most 2 the
    stored frame and the last-change time are left as they were.  The pass
    completes whenever the frame has the shape of the stored frame, and
    raises without changing anything when it has not. *)
Theorem C7_stable_frame_update (w : World) (frame : Frame) (now : Q) :
  let gray := cvtColor_BGR2GRAY frame in
  let pass := capture_body cvtColor_BGR2GRAY imencode_jpg b64encode
                decode_utf8 (Some frame) now w in
  (last_image (self w) = None ->
   snd pass = Ok tt /\
   last_image (self (fst pass)) = Some gray /\
   last_change_time (self (fst pass)) = Some now) /\
  (forall last,
     last_image (self w) = Some last ->
     shape gray = shape last ->
     snd pass = Ok tt /\
     ((2 < ndarray_sum (absdiff_rows gray last))%Z ->
      last_image (self (fst pass)) = Some gray /\
      last_change_time (self (fst pass)) = Some now) /\
     ((ndarray_sum (absdiff_rows gray last) <= 2)%Z ->
      last_image (self (fst pass)) = Some last /\
      last_change_time (self (fst pass)) = last_change_time (self w))) /\
  (forall last,
     last_image (self w) = Some last ->
     shape gray <> shape last ->
     pass = (w, Raise Cv2Error)) /\
  (exceeds_threshold w gray = true <->
   last_image (self w) = None \/
   exists last,
     last_image (self w) = Some last /\
     shape gray = shape last /\
     (2 < ndarray_sum (absdiff_rows gray last))%Z) /\
  (exceeds_threshold w gray = true <->
   last_image (self w) = None \/
   exists last d,
     last_image (self w) = Some last /\
     image_difference gray w = (w, Ok d) /\
     (2 < d)%Z) /\
  (exceeds_threshold w gray = true ->
   snd pass = Ok tt /\
   last_image (self (fst pass)) = Some gray /\
   last_change_time (self (fst pass)) = Some now) /\
  (exceeds_threshold w gray = false ->
   last_image (self (fst pass)) = last_image (self w) /\
   last_change_time (self (fst pass)) = last_change_time (self w)) /\
  ((forall last, last_image (self w) = Some last ->
                 shape_eqb gray last = true) ->
   snd pass = Ok tt).
Proof.
  intros gray pass.
  assert (Hsome : forall last, last_image (self w) = Some last ->
            shape gray = shape last ->
            exceeds_threshold w gray =
            (2 <? ndarray_sum (absdiff_rows gray last))%Z).
  { intros last Hlast Hsh. apply exceeds_threshold_some; [exact Hlast|].
    now apply shape_eqb_eq. }
  destruct (capture_body_stable w frame now) as (H1 & H2 & H3 & H4).
  fold gray in H1, H2, H3, H4. fold pass in H2, H3, H4.
  split; [|split; [|split; [|split;
    [|exact (conj H1 (conj H2 (conj H3 H4)))]]]].
  - intros Hnone. apply H2. unfold exceeds_threshold. now rewrite Hnone.
  - intros last Hlast Hsh. split; [|split].
    + apply H4. intros l Hl. rewrite Hlast in Hl. injection Hl as <-.
      now apply shape_eqb_eq.
    + intros Hd. apply H2. rewrite (Hsome last Hlast Hsh).
      now apply Z.ltb_lt.
    + intros Hd.
      assert (Hex : exceeds_threshold w gray = false).
      { rewrite (Hsome last Hlast Hsh). now apply Z.ltb_ge. }
      destruct (H3 Hex) as (Hi & Ht). rewrite Hi. now split.
  - intros last Hlast Hsh. subst pass. rewrite capture_body_cases, Hlast.
    fold gray. destruct (shape_eqb gray last) eqn:E; [|reflexivity].
    apply shape_eqb_eq in E. contradiction.
  - split.
    + intros Hex. destruct (last_image (self w)) as [last|] eqn:Hlast;
        [|now left].
      right. exists last.
      destruct (shape_eqb gray last) eqn:E.
      * apply shape_eqb_eq in E. rewrite (Hsome last eq_refl E) in Hex.
        apply Z.ltb_lt in Hex. now repeat split.
      * unfold exceeds_threshold in Hex.
        rewrite (image_difference_some w gray Hlast), Hlast, E in Hex.
        discriminate.
    + intros [Hnone | (last & Hlast & Hsh & Hd)].
      * unfold exceeds_threshold. now rewrite Hnone.
      * rewrite (Hsome last Hlast Hsh). now apply Z.ltb_lt.
Qed.

Lemma stable_shape_step (sh : list nat) (w : World) (frame : Frame)
    (now : Q) (payload : string) :
  stable_shape sh w ->
  shape (cvtColor_BGR2GRAY frame) = sh ->
  stable_shape sh
    (emit "image" payload
       (if exceeds_threshold w (cvtColor_BGR2GRAY frame)
        then set_stable (cvtColor_BGR2GRAY frame) now w
        else w)).
Proof.
  intros Hw Hf last.
  destruct (exceeds_threshold w (cvtColor_BGR2GRAY frame)); simpl.
  - intros H. injection H as <-. exact Hf.
  - apply Hw.
Qed.

Lemma capture_loop_reads (sh : list nat) (frames : list (Frame * Q)) :
  forall w,
    is_running (self w) = true ->
    stable_shape sh w ->
    (forall f, In f frames -> shape (cvtColor_BGR2GRAY (fst f)) = sh) ->
    exists w' : World,
      capture_loop cvtColor_BGR2GRAY imencode_jpg b64encode decode_utf8
        (reads frames) w = (w', Ok Waiting) /\
      emitted w' =
        emitted w ++
        map (fun f => image_event imencode_jpg b64encode decode_utf8 (fst f))
            frames /\
      is_running (self w') = true /\
      camera_open w' = camera_open w.
Proof.
  induction frames as [|[frame now] frames IH]; intros w Hrun Hw Hf.
  - exists w. simpl. rewrite Hrun, app_nil_r. repeat split.
  - assert (Hsh : forall last, last_image (self w) = Some last ->
                    shape_eqb (cvtColor_BGR2GRAY frame) last = true).
    { intros last Hlast. apply shape_eqb_eq.
      rewrite (Hw last Hlast). apply (Hf (frame, now)). now left. }
    simpl reads. simpl capture_loop. rewrite Hrun.
    unfold bind at 1. rewrite (capture_body_read w frame now Hsh).
    set (w1 := emit _ _ _).
    destruct (IH w1) as (w' & E & Hem & Hr & Hc).
    + subst w1. destruct (exceeds_threshold w _); exact Hrun.
    + apply stable_shape_step; [exact Hw|]. apply (Hf (frame, now)). now left.
    + intros f Hin. apply Hf. now right.
    + exists w'. split; [exact E|]. split; [|split].
      * rewrite Hem. subst w1. simpl emitted.
        destruct (exceeds_threshold w _); simpl;
          now rewrite <- app_assoc.
      * exact Hr.
      * rewrite Hc. subst w1.
        destruct (exceeds_threshold w _); reflexivity.
Qed.

(** C3: for the frames the camera delivers to the worker while it runs
    (frames of one shape, that of the stored stable frame if there is one),
    the channel receives one "image" event per frame, in the order of the
    frames, each carrying the decoded base64 text of the JPEG encoding of
    its frame, whatever the comparisons with the stable frame gave. *)
Theorem C3_one_image_event_per_frame
    (sh : list nat) (frames : list (Frame * Q)) (w : World) :
  is_running (self w) = true ->
  stable_shape sh w ->
  (forall f, In f frames -> shape (cvtColor_BGR2GRAY (fst f)) = sh) ->
  exists w' : World,
    capture_image cvtColor_BGR2GRAY imencode_jpg b64encode decode_utf8
      (reads frames) w = (w', Ok Waiting) /\
    emitted w' =
      emitted w ++
      map (fun f => image_event imencode_jpg b64encode decode_utf8 (fst f))
          frames /\
    List.length (emitted w') =
      (List.length (emitted w) + List.length frames)%nat.
Proof.
  intros Hrun Hw Hf.
  destruct (@capture_loop_reads sh frames (set_camera_open true w))
    as (w' & E & Hem & _); try assumption.
  exists w'. split; [exact E|]. split; [exact Hem|].
  rewrite Hem, length_app, length_map. reflexivity.
Qed.

End Capture.

Lemma C7_stable_frame_update_witness :
  let black := [["000"%byte; "000"%byte]; ["000"%byte; "000"%byte]] in
  let white := [["255"%byte; "255"%byte]; ["255"%byte; "255"%byte]] in
  let w := mkWorld (mkWebcamImageSender (Some black) (Some 0%Q) true)
             [] true in
  let pass := capture_body (fun f : Gray => f) (@List.concat byte)
                (fun b => b) string_of_list_byte (Some white) 5%Q w in
  snd pass = Ok tt /\
  last_image (self (fst pass)) = Some white /\
  last_change_time (self (fst pass)) = Some 5%Q.
Proof.
  intros black white w pass.
  destruct (proj1 (proj2 (@C7_stable_frame_update Gray (fun f : Gray => f)
                            (@List.concat byte) (fun b => b)
                            string_of_list_byte w white 5%Q))
              black eq_refl eq_refl)
    as (Hok & Hrep & _).
  split; [exact Hok|]. apply Hrep. vm_compute. reflexivity.
Defined.

Lemma C3_one_image_event_per_frame_witness :
  let black := [["000"%byte; "000"%byte]; ["000"%byte; "000"%byte]] in
  let white := [["255"%byte; "255"%byte]; ["255"%byte; "255"%byte]] in
  let w := fst (start_capture init) in
  exists w' : World,
    capture_image (fun f : Gray => f) (@List.concat byte) (fun b => b)
      string_of_list_byte
      (reads [(black, 1%Q); (black, 2%Q); (white, 3%Q)]) w
    = (w', Ok Waiting) /\
    List.length (emitted w') = 3%nat.
Proof.
  intros black white w.
  destruct (@C3_one_image_event_per_frame Gray (fun f : Gray => f)
              (@List.concat byte) (fun b => b) string_of_list_byte
              [2; 2]%nat [(black, 1%Q); (black, 2%Q); (white, 3%Q)] w)
    as (w' & E & _ & Hlen).
  - reflexivity.
  - intros last Hlast. discriminate Hlast.
  - intros f [<-|[<-|[<-|[]]]]; reflexivity.
  - exists w'. split; [exact E|]. exact Hlen.
Defined.

End WebcamProofs.

Module MusicProofs.

Import Music.

Lemma exec_all_cons (a : Action) (acts : list Action) (w : World) :
  exec_all (a :: acts) w = exec_all acts (exec w a).
Proof. reflexivity. Qed.

(** The worker taken step by step is [run] when nothing interrupts it. *)
Lemma run_loop_steps (busy : list bool) :
  forall w,
    pc w = AtLoopTest ->
    exec_all (passes busy) w =
    set_pc (match snd (run_loop busy w) with
            | Exited => Finished
            | Waiting => AtLoopTest
            end)
           (fst (run_loop busy w)).
Proof.
  induction busy as [|b busy IH]; intros w Hpc.
  - simpl. destruct w as [s p m]. simpl in Hpc. now subst p.
  - change (passes (b :: busy))
      with (WorkerStep b :: WorkerStep b :: passes busy).
    rewrite !exec_all_cons. simpl exec. simpl run_loop.
    destruct w as [s p m]. simpl in Hpc. subst p.
    unfold run_step at 2. simpl pc. simpl self.
    destruct (b && negb (stopped s)).
    + unfold run_step. simpl pc. simpl self.
      destruct (paused s); rewrite IH by reflexivity; reflexivity.
    + unfold run_step. simpl pc. simpl.
      assert (Hfin : forall acts v, pc v = Finished ->
                Forall (fun a => is_worker_step a = true) acts ->
                exec_all acts v = v).
      { induction acts as [|a acts IHa]; intros v Hv Hall; [reflexivity|].
        inversion Hall as [|? ? Ha Hrest]; subst.
        rewrite exec_all_cons. destruct a; try discriminate.
        simpl. unfold run_step. rewrite Hv. now apply IHa. }
      apply Hfin; [reflexivity|].
      clear. induction busy as [|b busy IH]; [constructor|].
      simpl. repeat constructor. exact IH.
Qed.

Lemma run_loop_set_pc (q : WorkerPC) (busy : list bool) :
  forall w,
    run_loop busy (set_pc q w) =
    (set_pc q (fst (run_loop busy w)), snd (run_loop busy w)).
Proof.
  induction busy as [|b busy IH]; intros w; [reflexivity|].
  simpl. destruct (b && negb (stopped (self w))); [|reflexivity].
  destruct (paused (self w)).
  - exact (IH (issue MusicPause w)).
  - exact (IH (issue MusicUnpause w)).
Qed.

Lemma run_steps (busy : list bool) (w : World) :
  pc w = AtEntry ->
  exec_all (WorkerStep true :: passes busy) w =
  set_pc (match snd (run busy w) with
          | Exited => Finished
          | Waiting => AtLoopTest
          end)
         (fst (run busy w)).
Proof.
  intros Hpc. rewrite exec_all_cons. simpl exec.
  unfold run_step. rewrite Hpc.
  rewrite run_loop_steps by reflexivity.
  rewrite run_loop_set_pc. reflexivity.
Qed.

(** No call and no step of the worker clears [stopped]. *)
Lemma exec_keeps_stopped (a : Action) (w : World) :
  stopped (self w) = true -> stopped (self (exec w a)) = true.
Proof.
  intros H. destruct a as [| | | |busy]; simpl; try exact H.
  - unfold start. destruct (pc w); exact H.
  - reflexivity.
  - unfold run_step. destruct (pc w); simpl; try exact H.
    + destruct (busy && negb (stopped (self w))); exact H.
    + destruct (paused (self w)); exact H.
Qed.

Lemma exec_all_keeps_stopped (acts : list Action) :
  forall w, stopped (self w) = true ->
            stopped (self (exec_all acts w)) = true.
Proof.
  induction acts as [|a acts IH]; intros w H; [exact H|].
  rewrite exec_all_cons. apply IH. now apply exec_keeps_stopped.
Qed.

(** [pause] and [resume] touch the [paused] flag only. *)
Lemma pause_resume_only_flag (acts : list Action) :
  forall w,
    forallb is_pause_or_resume acts = true ->
    file_path (self (exec_all acts w)) = file_path (self w) /\
    stopped (self (exec_all acts w)) = stopped (self w) /\
    pc (exec_all acts w) = pc w /\
    mixer (exec_all acts w) = mixer w.
Proof.
  induction acts as [|a acts IH]; intros w H; [repeat split|].
  simpl in H. apply andb_true_iff in H as [Ha H].
  rewrite exec_all_cons.
  destruct (IH (exec w a) H) as (Hf & Hs & Hp & Hm).
  rewrite Hf, Hs, Hp, Hm.
  destruct a; try discriminate; repeat split.
Qed.

(** A step of the worker once [stopped] is set and playback has started. *)
Lemma stopped_step (busy : bool) (w : World) :
  stopped (self w) = true ->
  playback_started (pc w) = true ->
  stopped (self (run_step busy w)) = true /\
  playback_started (pc (run_step busy w)) = true /\
  steps_to_exit (pc (run_step busy w)) = pred (steps_to_exit (pc w)) /\
  commands_left (pc (run_step busy w)) = 0%nat /\
  exists c,
    mixer (run_step busy w) = mixer w ++ c /\
    List.length c = commands_left (pc w) /\
    forallb is_pause_or_unpause c = true.
Proof.
  intros Hs Hp. unfold run_step.
  destruct (pc w) eqn:Hpc; try discriminate.
  - rewrite Hs, andb_false_r. simpl.
    repeat split; try assumption.
    exists []. now rewrite app_nil_r.
  - destruct (paused (self w)); simpl;
      (repeat split; try assumption);
      [exists [MusicPause] | exists [MusicUnpause]]; repeat split.
  - rewrite Hpc. repeat split; try assumption.
    exists []. now rewrite app_nil_r.
Qed.

(** Once [stopped] is set and the worker is in its loop or past it, calls of
    [pause] and [resume] and steps of the worker leave [stopped] set, add to
    the mixer at most the command of the pass in progress, and bring the
    worker out of its loop by its next test. *)
Lemma stopped_run (acts : list Action) :
  forall w,
    stopped (self w) = true ->
    playback_started (pc w) = true ->
    forallb (fun a => is_pause_or_resume a || is_worker_step a) acts
    = true ->
    exists extra,
      mixer (exec_all acts w) = mixer w ++ extra /\
      (List.length extra <= commands_left (pc w))%nat /\
      forallb is_pause_or_unpause extra = true /\
      ((steps_to_exit (pc w) <= worker_steps acts)%nat ->
       pc (exec_all acts w) = Finished).
Proof.
  induction acts as [|a acts IH]; intros w Hs Hp Hacts.
  - exists []. simpl. rewrite app_nil_r.
    repeat split; try lia.
    unfold worker_steps. simpl.
    destruct (pc w); simpl; try discriminate; try lia; reflexivity.
  - simpl in Hacts. apply andb_true_iff in Hacts as [Ha Hacts].
    rewrite exec_all_cons.
    destruct a as [| | | |busy]; try discriminate.
    + (* pause *)
      destruct (IH (pause w) Hs Hp Hacts) as (extra & E & Hl & Hf & Hx).
      exists extra. repeat split; assumption.
    + (* resume *)
      destruct (IH (resume w) Hs Hp Hacts) as (extra & E & Hl & Hf & Hx).
      exists extra. repeat split; assumption.
    + (* a step of the worker *)
      destruct (stopped_step busy w Hs Hp)
        as (Hs' & Hp' & Hsteps & Hcmds & c & Ec & Hlc & Hfc).
      destruct (IH (run_step busy w) Hs' Hp' Hacts)
        as (extra & E & Hl & Hf & Hx).
      exists (c ++ extra). simpl exec.
      rewrite E, Ec, <- app_assoc. split; [reflexivity|].
      split; [rewrite length_app; lia|].
      split; [rewrite forallb_app, Hfc, Hf; reflexivity|].
      unfold worker_steps. simpl filter. simpl List.length.
      fold (worker_steps acts).
      intros Hle. apply Hx. lia.
Qed.

(** X24: [stop] sets [stopped] and hands the mixer its stop command at
    once, whatever the worker is doing.  From then on no call and no step of
    the worker clears the flag; calls of [pause] and [resume] alone leave
    the mixer and the worker as they are; and once playback has started,
    with steps of the worker interleaved, the worker issues at most the
    pause or unpause of the pass it was in, never a play command, and has
    left its loop after its next test (two steps at most). *)
Theorem X24_stop_terminal_once_playing (w : World) (acts : list Action) :
  stopped (self (stop w)) = true /\
  mixer (stop w) = mixer w ++ [MusicStop] /\
  pc (stop w) = pc w /\
  (forall any : list Action,
     stopped (self (exec_all any (stop w))) = true) /\
  (forallb is_pause_or_resume acts = true ->
   mixer (exec_all acts (stop w)) = mixer (stop w) /\
   pc (exec_all acts (stop w)) = pc w) /\
  (forallb (fun a => is_pause_or_resume a || is_worker_step a) acts = true ->
   playback_started (pc w) = true ->
   (exists extra,
      mixer (exec_all acts (stop w)) = mixer (stop w) ++ extra /\
      (List.length extra <= commands_left (pc w))%nat /\
      forallb is_pause_or_unpause extra = true) /\
   ((steps_to_exit (pc w) <= worker_steps acts)%nat ->
    pc (exec_all acts (stop w)) = Finished)).
Proof.
  split; [reflexivity|]. split; [reflexivity|]. split; [reflexivity|].
  split; [intros any; now apply exec_all_keeps_stopped|].
  split.
  - intros Hpr.
    destruct (pause_resume_only_flag acts (stop w) Hpr) as (_ & _ & H1 & H2).
    now split.
  - intros Hacts Hp.
    destruct (stopped_run acts (stop w) eq_refl Hp Hacts)
      as (extra & E & Hl & Hf & Hx).
    split; [|exact Hx].
    exists extra. repeat split; assumption.
Qed.

Lemma X24_stop_terminal_once_playing_witness :
  let w := exec_all [CallStart; WorkerStep true; WorkerStep true]
             (init "song.mp3") in
  let acts := [CallResume; WorkerStep true; CallPause; CallResume;
               WorkerStep true] in
  stopped (self (exec_all acts (stop w))) = true /\
  pc (exec_all acts (stop w)) = Finished /\
  exists extra,
    mixer (exec_all acts (stop w)) = mixer (stop w) ++ extra /\
    (List.length extra <= 1)%nat.
Proof.
  intros w acts.
  destruct (X24_stop_terminal_once_playing w acts)
    as (_ & _ & _ & Hany & _ & Hrun).
  destruct (Hrun eq_refl eq_refl) as ((extra & E & Hl & _) & Hx).
  split; [apply Hany|]. split.
  - apply Hx. vm_compute. lia.
  - exists extra. split; [exact E | exact Hl].
Defined.

(** C5: the stopped flag is not terminal when [stop] comes before the
    worker's play command.  On a player whose worker has been started and
    has not yet run its prologue, [stop] sets [stopped] and hands the mixer
    its stop command; whatever calls of [pause] and [resume] follow, the
    worker then initialises the mixer, loads the file and plays it without
    looking at [stopped], and leaves at its first test: the mixer receives
    play after stop and nothing stops it again, with [stopped] set. *)
Theorem C5_stop_before_play_still_plays
    (w : World) (acts : list Action) (b1 b2 : bool) :
  pc w = AtEntry ->
  forallb is_pause_or_resume acts = true ->
  stopped (self (exec_all (CallStop :: acts ++
                             [WorkerStep b1; WorkerStep b2]) w)) = true /\
  pc (exec_all (CallStop :: acts ++ [WorkerStep b1; WorkerStep b2]) w)
  = Finished /\
  mixer (exec_all (CallStop :: acts ++ [WorkerStep b1; WorkerStep b2]) w) =
    mixer w ++
    [MusicStop; MixerInit; MusicLoad (file_path (self w)); MusicPlay].
Proof.
  intros Hpc Hacts. rewrite exec_all_cons. simpl exec.
  destruct (pause_resume_only_flag acts (stop w) Hacts)
    as (Hf & Hs & Hp & Hm).
  unfold exec_all in *. rewrite fold_left_app.
  set (w1 := fold_left exec acts (stop w)) in *.
  simpl in Hf, Hs, Hp, Hm. rewrite Hpc in Hp.
  simpl fold_left.
  assert (E1 : run_step b1 w1 =
               set_pc AtLoopTest
                 (issue MusicPlay
                    (issue (MusicLoad (file_path (self w1)))
                       (issue MixerInit w1)))).
  { unfold run_step. now rewrite Hp. }
  rewrite E1.
  assert (E2 : run_step b2
                 (set_pc AtLoopTest
                    (issue MusicPlay
                       (issue (MusicLoad (file_path (self w1)))
                          (issue MixerInit w1)))) =
               set_pc Finished
                 (set_pc AtLoopTest
                    (issue MusicPlay
                       (issue (MusicLoad (file_path (self w1)))
                          (issue MixerInit w1))))).
  { unfold run_step. simpl. now rewrite Hs, andb_false_r. }
  rewrite E2. simpl. rewrite Hs, Hm, Hf, <- !app_assoc. repeat split.
Qed.

Lemma C5_stop_before_play_still_plays_witness :
  let w := exec_all [CallStart] (init "song.mp3") in
  mixer (exec_all (CallStop :: [CallPause; CallResume] ++
                     [WorkerStep true; WorkerStep true]) w) =
  [MusicStop; MixerInit; MusicLoad "song.mp3"; MusicPlay] /\
  stopped (self (exec_all (CallStop :: [CallPause; CallResume] ++
                             [WorkerStep true; WorkerStep true]) w)) = true.
Proof.
  intros w.
  destruct (@C5_stop_before_play_still_plays w [CallPause; CallResume]
              true true eq_refl eq_refl)
    as (Hs & _ & Hm).
  split; [exact Hm | exact Hs].
Defined.

(** C8: [pause] and [resume] assign the [paused] flag and nothing else: the
    file path, the [stopped] flag, the worker and the commands received by
    the mixer are as before, after any number of such calls.  The mixer is
    paused or unpaused by the worker, in the pass of its loop that follows
    the call. *)
Theorem C8_pause_resume_frame (w : World) (acts : list Action) :
  forallb is_pause_or_resume acts = true ->
  pause w =
    mkWorld (mkMusicPlayer (file_path (self w)) true (stopped (self w)))
            (pc w) (mixer w) /\
  resume w =
    mkWorld (mkMusicPlayer (file_path (self w)) false (stopped (self w)))
            (pc w) (mixer w) /\
  (file_path (self (exec_all acts w)) = file_path (self w) /\
   stopped (self (exec_all acts w)) = stopped (self w) /\
   pc (exec_all acts w) = pc w /\
   mixer (exec_all acts w) = mixer w) /\
  (pc w = AtLoopTest -> stopped (self w) = false ->
   forall busy,
     mixer (exec_all [WorkerStep true; WorkerStep busy] (pause w)) =
       mixer w ++ [MusicPause] /\
     mixer (exec_all [WorkerStep true; WorkerStep busy] (resume w)) =
       mixer w ++ [MusicUnpause]).
Proof.
  intros Hacts.
  split; [reflexivity|]. split; [reflexivity|].
  split; [now apply pause_resume_only_flag|].
  intros Hpc Hs busy.
  unfold exec_all, pause, resume. simpl.
  unfold run_step. simpl. rewrite Hpc, Hs. simpl. split; reflexivity.
Qed.

Lemma C8_pause_resume_frame_witness :
  let w := exec_all [CallStart; WorkerStep true] (init "song.mp3") in
  mixer (exec_all [CallPause; CallResume; CallPause] w) = mixer w /\
  mixer (exec_all [WorkerStep true; WorkerStep true] (pause w)) =
    mixer w ++ [MusicPause].
Proof.
  intros w.
  destruct (@C8_pause_resume_frame w [CallPause; CallResume; CallPause]
              eq_refl)
    as (_ & _ & (_ & _ & _ & Hm) & Hnext).
  split; [exact Hm|].
  apply (Hnext eq_refl eq_refl true).
Defined.

End MusicProofs.

(** * Further properties of the recorder *)

Module AudioMore.

Import Audio.

Lemma record_idle (input : list (bytes * Q)) (w : World) :
  is_recording (self w) = false -> _record input w = (w, Ok Exited).
Proof. intros H. destruct input as [|[d t] r]; simpl; now rewrite H. Qed.

Lemma record_app (a b : list (bytes * Q)) :
  forall w,
    _record (a ++ b) w =
    match _record a w with
    | (w1, Ok Waiting) => _record b w1
    | other => other
    end.
Proof.
  induction a as [|[d t] a IH]; intros w.
  - simpl app. simpl (_record [] w).
    destruct (is_recording (self w)) eqn:Hr; [reflexivity|].
    now apply record_idle.
  - simpl. destruct (is_recording (self w)); [|reflexivity].
    unfold bind. destruct (_record_body d t w) as [w1 [u|e]]; [|reflexivity].
    apply IH.
Qed.

Section RecorderMore.

Variable cfg : Config.

Lemma record_body_no_stream data now fr rec last d out :
  _record_body data now (recorder cfg None fr rec last d out) =
  (recorder cfg None fr rec last d out, Raise AttributeError).
Proof. reflexivity. Qed.

Lemma record_body_empty now s fr rec last d out :
  _record_body [] now (recorder cfg (Some s) fr rec last d out) =
  (recorder cfg (Some s) (fr ++ [[]]) rec last d out,
   Raise ZeroDivisionError).
Proof. reflexivity. Qed.

(** The state in which the loop waits for its next chunk. *)
Lemma record_waiting_core (input : list (bytes * Q)) :
  forall st fr rec last d out w',
    _record input (recorder cfg st fr rec last d out) = (w', Ok Waiting) ->
    w' = recorder cfg st (fr ++ map fst input) true
           (last_sound (cfg_silence_threshold cfg) last input) d out /\
    rec = true /\
    forallb (fun e => nonempty (fst e)) input = true.
Proof.
  induction input as [|[data now] rest IH];
    intros st fr rec last d out w' H.
  - destruct rec; simpl in H; [|discriminate].
    injection H as <-. rewrite app_nil_r. repeat split.
  - destruct rec;
      [|rewrite AudioProofs.record_not_recording in H; discriminate].
    rewrite AudioProofs.record_cons in H.
    destruct st as [s|];
      [|rewrite record_body_no_stream in H; discriminate].
    destruct data as [|b data];
      [rewrite record_body_empty in H; discriminate|].
    rewrite AudioProofs.record_body_nonempty in H by reflexivity.
    unfold last_sound. simpl fold_left. simpl map.
    destruct (silent (cfg_silence_threshold cfg) (b :: data)).
    + destruct (Qle_bool (cfg_silence_duration cfg) (now - last)).
      * destruct s;
          [ rewrite AudioProofs.stop_recording_open in H
              by (intros Hc; inversion Hc);
            rewrite AudioProofs.record_not_recording in H; discriminate H
          | rewrite AudioProofs.stop_recording_open in H
              by (intros Hc; inversion Hc);
            rewrite AudioProofs.record_not_recording in H; discriminate H
          | rewrite AudioProofs.stop_recording_closed in H; discriminate H ].
      * destruct (IH _ _ _ _ _ _ _ H) as (-> & _ & Hne).
        rewrite <- app_assoc. repeat split. exact Hne.
    + destruct (IH _ _ _ _ _ _ _ H) as (-> & _ & Hne).
      rewrite <- app_assoc. repeat split. exact Hne.
Qed.

(** Whatever the loop does, it buffers a prefix of the chunks delivered and
    writes at most one file. *)
Lemma record_grows_core (input : list (bytes * Q)) :
  forall st fr rec last d out,
    exists n st' rec' last' d' out' r,
      (n <= List.length input)%nat /\
      _record input (recorder cfg st fr rec last d out) =
      (recorder cfg st' (fr ++ map fst (firstn n input)) rec' last' d' out',
       r) /\
      (d' = d \/
       d' = d ++ [wav_of cfg (fr ++ map fst (firstn n input))]).
Proof.
  induction input as [|[data now] rest IH]; intros st fr rec last d out.
  - exists 0%nat, st, rec, last, d, out.
    exists (if rec then Ok Waiting else Ok Exited).
    split; [reflexivity|]. simpl firstn. simpl map. rewrite app_nil_r.
    split; [destruct rec; reflexivity | now left].
  - destruct rec.
    2:{ exists 0%nat, st, false, last, d, out, (Ok Exited).
        split; [simpl; lia|]. simpl firstn. simpl map. rewrite app_nil_r.
        split; [apply AudioProofs.record_not_recording | now left]. }
    rewrite AudioProofs.record_cons.
    destruct st as [s|].
    2:{ exists 0%nat, None, true, last, d, out, (Raise AttributeError).
        split; [simpl; lia|]. simpl firstn. simpl map. rewrite app_nil_r.
        rewrite record_body_no_stream. split; [reflexivity | now left]. }
    destruct data as [|b data].
    { exists 1%nat, (Some s), true, last, d, out, (Raise ZeroDivisionError).
      split; [simpl; lia|]. rewrite record_body_empty.
      split; [reflexivity | now left]. }
    rewrite AudioProofs.record_body_nonempty by reflexivity.
    assert (Hnext : forall last1,
      exists n st' rec' last' d' out' r,
        (n <= List.length ((b :: data, now) :: rest))%nat /\
        _record rest
          (recorder cfg (Some s) (fr ++ [b :: data]) true last1 d out) =
        (recorder cfg st'
           (fr ++ map fst (firstn n ((b :: data, now) :: rest)))
           rec' last' d' out', r) /\
        (d' = d \/
         d' = d ++ [wav_of cfg
                      (fr ++ map fst
                               (firstn n ((b :: data, now) :: rest)))])).
    { intros last1.
      destruct (IH (Some s) (fr ++ [b :: data]) true last1 d out)
        as (n & st' & rec' & last' & d' & out' & r & Hn & E & Hd).
      exists (S n), st', rec', last', d', out', r.
      rewrite <- app_assoc in E, Hd.
      split; [simpl; apply le_n_S; exact Hn|]. split; assumption. }
    destruct (silent (cfg_silence_threshold cfg) (b :: data));
      [|apply Hnext].
    destruct (Qle_bool (cfg_silence_duration cfg) (now - last));
      [|apply Hnext].
    destruct s.
    + rewrite AudioProofs.stop_recording_open by discriminate.
      rewrite AudioProofs.record_not_recording.
      exists 1%nat. do 6 eexists.
      split; [simpl; lia|]. split; [reflexivity | now right].
    + rewrite AudioProofs.stop_recording_open by discriminate.
      rewrite AudioProofs.record_not_recording.
      exists 1%nat. do 6 eexists.
      split; [simpl; lia|]. split; [reflexivity | now right].
    + rewrite AudioProofs.stop_recording_closed.
      exists 1%nat. do 6 eexists.
      split; [simpl; lia|]. split; [reflexivity | now left].
Qed.

End RecorderMore.

(** X2: whenever the worker is left waiting for its next chunk, every chunk
    delivered so far was non-empty and is buffered in the order read, the
    recording flag is set, the stream, the files and the printed lines are
    untouched, and [last_sound_time] is the clock reading of the last chunk
    that was not below the threshold (its old value when there is none). *)
Theorem X2_record_waiting_state
    (input : list (bytes * Q)) (w w' : World) :
  _record input w = (w', Ok Waiting) ->
  is_recording (self w') = true /\
  audio_stream (self w') = audio_stream (self w) /\
  audio_frames (self w') = audio_frames (self w) ++ map fst input /\
  last_sound_time (self w') =
    last_sound (silence_threshold (self w)) (last_sound_time (self w))
      input /\
  config_of (self w') = config_of (self w) /\
  disk w' = disk w /\
  stdout w' = stdout w /\
  forallb (fun e => nonempty (fst e)) input = true.
Proof.
  intros H. rewrite (AudioProofs.world_eta w) in H.
  apply record_waiting_core in H. destruct H as (-> & _ & Hne).
  repeat split. exact Hne.
Qed.

Lemma X2_record_waiting_state_witness :
  let w := fst (start_recording
                  (init 0 "out.wav" 1 44100 1 (1 # 100) 2)) in
  let input := [(["020"%byte; "020"%byte], 1%Q);
                (["000"%byte; "000"%byte], 2%Q)] in
  last_sound_time (self (fst (_record input w))) = 1%Q /\
  disk (fst (_record input w)) = [].
Proof.
  intros w input.
  destruct (@X2_record_waiting_state input w (fst (_record input w)))
    as (_ & _ & _ & Hl & _ & Hd & _).
  - vm_compute. reflexivity.
  - split; [rewrite Hl; reflexivity | exact Hd].
Defined.

(** X3: on any recorder and any delivery of chunks, whether the worker ends
    waiting, exits or raises, it keeps the configuration, extends the buffer
    by a prefix of the chunks delivered, in the order delivered and without
    dropping any buffered before, and writes at most one file, whose
    content is the buffer it ends with. *)
Theorem X3_record_grows (input : list (bytes * Q)) (w : World) :
  exists n : nat,
    (n <= List.length input)%nat /\
    grows_by w (fst (_record input w)) (map fst (firstn n input)).
Proof.
  destruct (record_grows_core (config_of (self w)) input
              (audio_stream (self w)) (audio_frames (self w))
              (is_recording (self w)) (last_sound_time (self w))
              (disk w) (stdout w))
    as (n & st' & rec' & last' & d' & out' & r & Hn & E & Hd).
  rewrite <- (AudioProofs.world_eta w) in E.
  exists n. split; [exact Hn|].
  rewrite E. unfold grows_by. simpl fst.
  split; [destruct w as [[] ? ?]; reflexivity|].
  split; [reflexivity|].
  destruct Hd as [-> | ->]; [now left | now right].
Qed.

(** X4: an empty chunk delivered to a waiting worker ends it with
    ZeroDivisionError: the empty chunk is already buffered, the recording
    flag is still set, the stream is still open and no file is written. *)
Theorem X4_empty_chunk_ends_worker
    (pre rest : list (bytes * Q)) (now : Q) (w w1 : World) (s : Stream) :
  audio_stream (self w) = Some s ->
  _record pre w = (w1, Ok Waiting) ->
  exists w2 : World,
    _record (pre ++ ([], now) :: rest) w = (w2, Raise ZeroDivisionError) /\
    is_recording (self w2) = true /\
    audio_stream (self w2) = Some s /\
    audio_frames (self w2) = audio_frames (self w) ++ map fst pre ++ [[]] /\
    disk w2 = disk w /\
    stdout w2 = stdout w.
Proof.
  intros Hst Hpre. rewrite record_app, Hpre.
  rewrite (AudioProofs.world_eta w) in Hpre.
  apply record_waiting_core in Hpre. destruct Hpre as (-> & _ & _).
  rewrite Hst. rewrite AudioProofs.record_cons, record_body_empty.
  eexists. split; [reflexivity|]. simpl. rewrite <- app_assoc.
  repeat split.
Qed.

Lemma X4_empty_chunk_ends_worker_witness :
  let w := fst (start_recording
                  (init 0 "out.wav" 1 44100 1 (1 # 100) 2)) in
  let pre := [(["020"%byte; "020"%byte], 1%Q)] in
  exists w2 : World,
    _record (pre ++ [([], 2%Q)]) w = (w2, Raise ZeroDivisionError) /\
    is_recording (self w2) = true /\ disk w2 = [].
Proof.
  intros w pre.
  destruct (@X4_empty_chunk_ends_worker pre [] 2%Q w
              (fst (_record pre w)) StreamActive)
    as (w2 & E & Hr & _ & _ & Hd & _).
  - reflexivity.
  - vm_compute. reflexivity.
  - exists w2. split; [exact E|]. split; [exact Hr | exact Hd].
Defined.

(** X5: [stop_recording] on a recorder that was never started finds no
    stream: it raises AttributeError after clearing the flag, and writes and
    prints nothing. *)
Theorem X5_stop_before_start (w : World) :
  audio_stream (self w) = None ->
  exists w' : World,
    stop_recording w = (w', Raise AttributeError) /\
    is_recording (self w') = false /\
    audio_stream (self w') = None /\
    audio_frames (self w') = audio_frames (self w) /\
    disk w' = disk w /\
    stdout w' = stdout w.
Proof.
  intros Hst. destruct w as [[fn ch sr cs fmt st fr rec thr dur last] d out].
  simpl in Hst. subst st. eexists. split; [reflexivity|]. repeat split.
Qed.

Lemma X5_stop_before_start_witness :
  exists w' : World,
    stop_recording (default_init 0 "out.wav") = (w', Raise AttributeError) /\
    disk w' = [].
Proof.
  destruct (@X5_stop_before_start (default_init 0 "out.wav") eq_refl)
    as (w' & E & _ & _ & _ & Hd & _).
  exists w'. split; [exact E | exact Hd].
Defined.

(** *** Bounds on the energy *)

Lemma squared_sum_upper (data : bytes) :
  (squared_sum data <= 65025 * Z.of_nat (List.length data))%Z.
Proof.
  induction data as [|b data IH].
  - reflexivity.
  - rewrite AudioProofs.squared_sum_cons.
    pose proof (AudioProofs.sample_value_range b).
    change (List.length (b :: data)) with (S (List.length data)).
    rewrite Nat2Z.inj_succ. nia.
Qed.

Lemma Q2R_255 : Q2R 255 = 255%R.
Proof. unfold Q2R. simpl. lra. Qed.

(** X6: the energy of a non-empty chunk is at most 255, the largest byte
    value, so with a threshold above 255 every non-empty chunk is silent. *)
Theorem X6_rms_at_most_255 (data : bytes) :
  nonempty data = true ->
  exists rms,
    _calculate_rms data = Ok rms /\
    (rms_value rms <= 255)%R /\
    (forall t, Qltb 255 t = true -> silent t data = true).
Proof.
  intros Hne.
  destruct (AudioProofs.calculate_rms_nonempty data Hne) as (n & Hn & E).
  pose proof (AudioProofs.squared_sum_nonneg data) as Hss.
  pose proof (squared_sum_upper data) as Hup. rewrite Hn in Hup.
  exists (SqrtOf (squared_sum data # n)). split; [exact E|].
  assert (Hle : (rms_value (SqrtOf (squared_sum data # n)) <= 255)%R).
  { unfold rms_value. simpl radicand. rewrite AudioProofs.Q2R_frac.
    rewrite <- (sqrt_square 255) by lra.
    apply sqrt_le_1_alt.
    assert (Hp : (0 < IZR (Zpos n))%R) by now apply IZR_lt.
    apply (Rmult_le_reg_r (IZR (Zpos n))); [exact Hp|].
    unfold Rdiv. rewrite Rmult_assoc, Rinv_l, Rmult_1_r by lra.
    replace (255 * 255)%R with (IZR 65025) by (simpl; lra).
    rewrite <- mult_IZR. now apply IZR_le. }
  split; [exact Hle|].
  intros t Ht. unfold silent. rewrite E.
  apply AudioProofs.rms_ltb_spec.
  - simpl. now apply AudioProofs.radicand_nonneg.
  - apply Qltb_lt, Qlt_Rlt in Ht. rewrite Q2R_255 in Ht. lra.
Qed.

Lemma X6_rms_at_most_255_witness :
  silent 256 ["255"%byte; "255"%byte] = true.
Proof.
  destruct (@X6_rms_at_most_255 ["255"%byte; "255"%byte] eq_refl)
    as (rms & _ & _ & H).
  apply H. reflexivity.
Defined.

Lemma silent_nonpositive (t : Q) (data : bytes) :
  Qle_bool t 0 = true -> silent t data = false.
Proof.
  intros Ht. unfold silent.
  destruct (_calculate_rms data); [|reflexivity].
  unfold rms_ltb, Qltb. now rewrite Ht.
Qed.

(** X7: with a threshold of zero or less no chunk is silent, so a started
    recorder fed non-empty chunks never stops on its own, however long the
    silence. *)
Theorem X7_nonpositive_threshold_never_stops
    (w : World) (input : list (bytes * Q)) :
  Qle_bool (silence_threshold (self w)) 0 = true ->
  is_recording (self w) = true ->
  audio_stream (self w) = Some StreamActive ->
  forallb (fun e => nonempty (fst e)) input = true ->
  (forall data, silent (silence_threshold (self w)) data = false) /\
  exists w' : World,
    _record input w = (w', Ok Waiting) /\
    is_recording (self w') = true /\
    audio_frames (self w') = audio_frames (self w) ++ map fst input /\
    disk w' = disk w.
Proof.
  intros Ht Hrec Hst Hne.
  split; [intros data; now apply (@silent_nonpositive _ data)|].
  assert (Hl : forallb (fun e => loud (silence_threshold (self w)) (fst e))
                 input = true).
  { rewrite forallb_forall in *. intros e He. specialize (Hne e He).
    pose proof (@silent_nonpositive _ (fst e) Ht) as Hs.
    unfold silent in Hs. unfold loud.
    destruct (AudioProofs.calculate_rms_nonempty (fst e) Hne)
      as (n & _ & E).
    rewrite E in *. now rewrite Hs. }
  pose proof (AudioProofs.world_eta w) as Hw. rewrite Hrec, Hst in Hw.
  pose proof (AudioProofs.record_all_loud (config_of (self w)) input
                StreamActive (audio_frames (self w))
                (last_sound_time (self w)) (disk w) (stdout w) Hl) as E.
  rewrite <- Hw in E.
  eexists. split; [exact E|]. repeat split.
Qed.

Lemma X7_nonpositive_threshold_never_stops_witness :
  let w := fst (start_recording (init 0 "out.wav" 1 44100 1 0 2)) in
  let input := [(["000"%byte; "000"%byte], 10%Q);
                (["000"%byte; "000"%byte], 100%Q)] in
  exists w' : World, _record input w = (w', Ok Waiting) /\ disk w' = [].
Proof.
  intros w input.
  destruct (@X7_nonpositive_threshold_never_stops w input)
    as (_ & w' & E & _ & _ & Hd); try reflexivity.
  exists w'. split; [exact E | exact Hd].
Defined.

(** *** Sessions *)

Lemma start_recording_recorder cfg st fr rec last d out :
  start_recording (recorder cfg st fr rec last d out) =
  (recorder cfg (Some StreamActive) fr true last d
     (out ++ ["Recording started..."%string]), Ok tt).
Proof. reflexivity. Qed.

(** X8: [start_recording] does not empty the buffer.  A recorder stopped,
    started again, fed chunks at or above the threshold and stopped again
    writes a second file that begins with everything the first session
    recorded, followed by the new chunks. *)
Theorem X8_restart_keeps_buffer
    (w : World) (s : Stream) (input : list (bytes * Q)) :
  audio_stream (self w) = Some s ->
  s <> StreamClosed ->
  forallb (fun e => loud (silence_threshold (self w)) (fst e)) input = true ->
  exists w1 w2 w3 w4 : World,
    stop_recording w = (w1, Ok tt) /\
    start_recording w1 = (w2, Ok tt) /\
    _record input w2 = (w3, Ok Waiting) /\
    stop_recording w3 = (w4, Ok tt) /\
    disk w4 =
      disk w ++
      [wav_of (config_of (self w)) (audio_frames (self w));
       wav_of (config_of (self w))
         (audio_frames (self w) ++ map fst input)].
Proof.
  intros Hst Hs Hl.
  pose proof (AudioProofs.world_eta w) as Hw. rewrite Hst in Hw.
  pose proof (AudioProofs.stop_recording_open (config_of (self w))
                (audio_frames (self w)) (is_recording (self w))
                (last_sound_time (self w)) (disk w) (stdout w) Hs) as E1.
  rewrite <- Hw in E1.
  do 4 eexists. split; [exact E1|].
  split; [apply start_recording_recorder|].
  split; [apply AudioProofs.record_all_loud; exact Hl|].
  split; [apply AudioProofs.stop_recording_open; discriminate|].
  simpl disk. now rewrite <- app_assoc.
Qed.

Lemma X8_restart_keeps_buffer_witness :
  let w := fst (_record [(["020"%byte; "020"%byte], 1%Q)]
                  (fst (start_recording
                          (init 0 "out.wav" 1 44100 1 (1 # 100) 2)))) in
  exists w1 w2 w3 w4 : World,
    stop_recording w = (w1, Ok tt) /\
    start_recording w1 = (w2, Ok tt) /\
    _record [(["030"%byte; "030"%byte], 5%Q)] w2 = (w3, Ok Waiting) /\
    stop_recording w3 = (w4, Ok tt) /\
    map wav_frames (disk w4) =
      [["020"%byte; "020"%byte];
       ["020"%byte; "020"%byte; "030"%byte; "030"%byte]].
Proof.
  intros w.
  destruct (@X8_restart_keeps_buffer w StreamActive
              [(["030"%byte; "030"%byte], 5%Q)])
    as (w1 & w2 & w3 & w4 & E1 & E2 & E3 & E4 & Hd).
  - reflexivity.
  - discriminate.
  - vm_compute. reflexivity.
  - exists w1, w2, w3, w4. repeat (split; [assumption|]).
    rewrite Hd. reflexivity.
Defined.

Lemma squared_sum_perm (a b : bytes) :
  Permutation a b -> squared_sum a = squared_sum b.
Proof.
  induction 1 as [|x a b _ IH|x y a|a b c _ IH1 _ IH2].
  - reflexivity.
  - rewrite !AudioProofs.squared_sum_cons. now rewrite IH.
  - rewrite !AudioProofs.squared_sum_cons. lia.
  - now rewrite IH1.
Qed.

(** X9: the energy of a chunk does not depend on the order of its bytes:
    [_calculate_rms] gives the same result, or the same error, on every
    rearrangement of a chunk. *)
Theorem X9_rms_ignores_byte_order (a b : bytes) :
  Permutation a b -> _calculate_rms a = _calculate_rms b.
Proof.
  intros H. unfold _calculate_rms.
  rewrite (squared_sum_perm H), (Permutation_length H). reflexivity.
Qed.

Lemma X9_rms_ignores_byte_order_witness :
  _calculate_rms ["001"%byte; "002"%byte; "003"%byte] =
  _calculate_rms ["003"%byte; "001"%byte; "002"%byte].
Proof.
  apply X9_rms_ignores_byte_order.
  apply Permutation_sym.
  exact (Permutation_cons_append ["001"%byte; "002"%byte] "003"%byte).
Defined.

(** X10: whatever chunks are delivered to the worker of a recorder that was
    just constructed and started, it writes at most one file, and that file
    has the path, channel count and sample rate given to the constructor and
    a sample width of 2 bytes. *)
Theorem X10_files_of_a_fresh_session
    (now : Q) (fn : string) (ch sr cs : Z) (thr dur : Q)
    (input : list (bytes * Q)) :
  let w := fst (start_recording (init now fn ch sr cs thr dur)) in
  let files := disk (fst (_record input w)) in
  (List.length files <= 1)%nat /\
  forall f, In f files ->
    wav_path f = fn /\ wav_nchannels f = ch /\
    wav_sampwidth f = 2%Z /\ wav_framerate f = sr.
Proof.
  intros w files. subst files.
  destruct (record_grows_core (mkConfig fn ch sr cs paInt16 thr dur) input
              (Some StreamActive) [] true now []
              ["Recording started..."%string])
    as (n & st' & rec' & last' & d' & out' & r & _ & E & Hd).
  change (recorder (mkConfig fn ch sr cs paInt16 thr dur)
            (Some StreamActive) [] true now []
            ["Recording started..."%string]) with w in E.
  rewrite E. simpl fst. simpl disk.
  destruct Hd as [-> | ->].
  - split; [simpl; lia|]. intros f [].
  - split; [simpl; lia|]. intros f [<-|[]]. repeat split.
Qed.

End AudioMore.

(** * Further properties of the webcam sender *)

Module WebcamMore.

Import Webcam.

(** *** [image_difference] as a distance *)

Lemma pixel_value_inj (p q : byte) : pixel_value p = pixel_value q -> p = q.
Proof.
  unfold pixel_value. intros H.
  assert (E : Byte.to_N p = Byte.to_N q) by lia.
  apply (f_equal Byte.of_N) in E.
  rewrite !Byte.of_to_N in E. now injection E.
Qed.

Lemma absdiff_pixel_sym (p q : byte) : absdiff_pixel p q = absdiff_pixel q p.
Proof. unfold absdiff_pixel. lia. Qed.

Lemma absdiff_pixel_zero (p q : byte) : absdiff_pixel p q = 0%Z -> p = q.
Proof. unfold absdiff_pixel. intros H. apply pixel_value_inj. lia. Qed.

Lemma absdiff_pixel_triangle (p q r : byte) :
  (absdiff_pixel p r <= absdiff_pixel p q + absdiff_pixel q r)%Z.
Proof. unfold absdiff_pixel. lia. Qed.

Lemma shape_eqb_sym (a b : Gray) : shape_eqb a b = shape_eqb b a.
Proof.
  apply eq_true_iff_eq. rewrite !WebcamProofs.shape_eqb_eq.
  split; intros H; now symmetry.
Qed.

Lemma shape_eqb_trans (a b c : Gray) :
  shape_eqb a b = true -> shape_eqb b c = true -> shape_eqb a c = true.
Proof.
  rewrite !WebcamProofs.shape_eqb_eq. intros -> ->. reflexivity.
Qed.

Lemma absdiff_row_cons (p q : byte) (r s : list byte) :
  fold_left Z.add (absdiff_row (p :: r) (q :: s)) 0%Z =
  (absdiff_pixel p q + fold_left Z.add (absdiff_row r s) 0)%Z.
Proof.
  unfold absdiff_row. simpl combine. simpl map.
  now rewrite WebcamProofs.row_sum_cons.
Qed.

Lemma absdiff_rows_cons (r s : list byte) (a b : Gray) :
  ndarray_sum (absdiff_rows (r :: a) (s :: b)) =
  (fold_left Z.add (absdiff_row r s) 0 + ndarray_sum (absdiff_rows a b))%Z.
Proof.
  unfold absdiff_rows. simpl combine. simpl map.
  now rewrite WebcamProofs.ndarray_sum_cons.
Qed.

Lemma row_sym (r : list byte) :
  forall s, fold_left Z.add (absdiff_row r s) 0%Z =
            fold_left Z.add (absdiff_row s r) 0%Z.
Proof.
  induction r as [|p r IH]; intros [|q s]; try reflexivity.
  now rewrite !absdiff_row_cons, IH, absdiff_pixel_sym.
Qed.

Lemma diff_sym (a : Gray) :
  forall b, ndarray_sum (absdiff_rows a b) = ndarray_sum (absdiff_rows b a).
Proof.
  induction a as [|r a IH]; intros [|s b]; try reflexivity.
  now rewrite !absdiff_rows_cons, IH, row_sym.
Qed.

Lemma row_zero (r : list byte) :
  forall s, List.length r = List.length s ->
            fold_left Z.add (absdiff_row r s) 0%Z = 0%Z -> r = s.
Proof.
  induction r as [|p r IH]; intros [|q s] Hlen Hz; try discriminate.
  - reflexivity.
  - injection Hlen as Hlen. rewrite absdiff_row_cons in Hz.
    pose proof (WebcamProofs.absdiff_pixel_range p q).
    pose proof (WebcamProofs.row_bounds r s Hlen).
    assert (Hp : absdiff_pixel p q = 0%Z) by lia.
    assert (Hr : fold_left Z.add (absdiff_row r s) 0%Z = 0%Z) by lia.
    now rewrite (absdiff_pixel_zero p q Hp), (IH s Hlen Hr).
Qed.

Lemma diff_zero (a : Gray) :
  forall b, shape_eqb a b = true ->
            ndarray_sum (absdiff_rows a b) = 0%Z -> a = b.
Proof.
  induction a as [|r a IH]; intros [|s b] Hsh Hz; try discriminate.
  - reflexivity.
  - rewrite WebcamProofs.shape_eqb_cons in Hsh.
    apply andb_true_iff in Hsh as [Hr Ha]. apply Nat.eqb_eq in Hr.
    rewrite absdiff_rows_cons in Hz.
    pose proof (WebcamProofs.row_bounds r s Hr).
    pose proof (WebcamProofs.diff_bounds a b Ha).
    assert (H1 : fold_left Z.add (absdiff_row r s) 0%Z = 0%Z) by lia.
    assert (H2 : ndarray_sum (absdiff_rows a b) = 0%Z) by lia.
    now rewrite (row_zero r s Hr H1), (IH b Ha H2).
Qed.

Lemma row_triangle (r : list byte) :
  forall s t,
    List.length r = List.length s -> List.length s = List.length t ->
    (fold_left Z.add (absdiff_row r t) 0 <=
     fold_left Z.add (absdiff_row r s) 0 +
     fold_left Z.add (absdiff_row s t) 0)%Z.
Proof.
  induction r as [|p r IH]; intros [|q s] [|x t] H1 H2;
    try discriminate H1; try discriminate H2.
  - unfold absdiff_row. simpl. lia.
  - injection H1 as H1. injection H2 as H2.
    rewrite !absdiff_row_cons.
    pose proof (absdiff_pixel_triangle p q x).
    specialize (IH s t H1 H2). lia.
Qed.

Lemma diff_triangle (a : Gray) :
  forall b c,
    shape_eqb a b = true -> shape_eqb b c = true ->
    (ndarray_sum (absdiff_rows a c) <=
     ndarray_sum (absdiff_rows a b) + ndarray_sum (absdiff_rows b c))%Z.
Proof.
  induction a as [|r a IH]; intros [|s b] [|t c] H1 H2;
    try discriminate H1; try discriminate H2.
  - unfold ndarray_sum, absdiff_rows. simpl. lia.
  - rewrite WebcamProofs.shape_eqb_cons in H1, H2.
    apply andb_true_iff in H1 as [Hr1 Ha1].
    apply andb_true_iff in H2 as [Hr2 Ha2].
    apply Nat.eqb_eq in Hr1, Hr2.
    rewrite !absdiff_rows_cons.
    pose proof (row_triangle r s t Hr1 Hr2).
    specialize (IH b c Ha1 Ha2). lia.
Qed.

(** X11: [image_difference] reads the sender and never changes it.  With
    no stable frame stored it answers 0; with one stored it answers a
    non-negative sum when the image has the shape of the stored frame and
    raises the library's error when it has not. *)
Theorem X11_image_difference_outcomes (w : World) (image : Gray) :
  fst (image_difference image w) = w /\
  (last_image (self w) = None -> snd (image_difference image w) = Ok 0%Z) /\
  (forall last, last_image (self w) = Some last ->
     (shape image = shape last ->
      exists d, snd (image_difference image w) = Ok d /\ (0 <= d)%Z) /\
     (shape image <> shape last ->
      snd (image_difference image w) = Raise Cv2Error)).
Proof.
  destruct (last_image (self w)) as [last|] eqn:Hlast.
  - rewrite (WebcamProofs.image_difference_some w image Hlast).
    split; [destruct (shape_eqb image last); reflexivity|].
    split; [discriminate|].
    intros l Hl. injection Hl as <-. split.
    + intros Hsh. apply WebcamProofs.shape_eqb_eq in Hsh. rewrite Hsh.
      eexists. split; [reflexivity|].
      now apply WebcamProofs.diff_bounds.
    + intros Hsh. destruct (shape_eqb image last) eqn:E; [|reflexivity].
      apply WebcamProofs.shape_eqb_eq in E. contradiction.
  - unfold image_difference, bind, get. rewrite Hlast.
    split; [reflexivity|]. split; [reflexivity|]. discriminate.
Qed.

Lemma X11_image_difference_outcomes_witness :
  let w := mkWorld (mkWebcamImageSender
                      (Some [["000"%byte; "000"%byte]]) (Some 0%Q) true)
             [] true in
  snd (image_difference [["000"%byte]; ["000"%byte]] w) = Raise Cv2Error.
Proof.
  intros w.
  destruct (X11_image_difference_outcomes w [["000"%byte]; ["000"%byte]])
    as (_ & _ & H).
  apply (H [["000"%byte; "000"%byte]] eq_refl). discriminate.
Defined.

(** X12: the difference is symmetric: an image against a stored frame gives
    what the stored frame gives against that image stored, value or
    error. *)
Theorem X12_image_difference_symmetric (wa wb : World) (a b : Gray) :
  last_image (self wa) = Some a ->
  last_image (self wb) = Some b ->
  snd (image_difference b wa) = snd (image_difference a wb).
Proof.
  intros Ha Hb.
  rewrite (WebcamProofs.image_difference_some wa b Ha).
  rewrite (WebcamProofs.image_difference_some wb a Hb).
  rewrite (shape_eqb_sym b a), (diff_sym b a).
  destruct (shape_eqb a b); reflexivity.
Qed.

Lemma X12_image_difference_symmetric_witness :
  let a := [["010"%byte; "200"%byte]] in
  let b := [["030"%byte; "100"%byte]] in
  snd (image_difference b
         (mkWorld (mkWebcamImageSender (Some a) None true) [] true)) =
  snd (image_difference a
         (mkWorld (mkWebcamImageSender (Some b) None true) [] true)).
Proof.
  intros a b. apply X12_image_difference_symmetric; reflexivity.
Defined.

Lemma image_difference_same (w : World) (image : Gray) :
  last_image (self w) = Some image ->
  image_difference image w = (w, Ok 0%Z).
Proof.
  intros Hlast. rewrite (WebcamProofs.image_difference_some w image Hlast).
  now rewrite WebcamProofs.shape_eqb_refl, WebcamProofs.diff_self.
Qed.

(** X13: against a stored stable frame the difference is 0 for that frame
    and for no other image. *)
Theorem X13_image_difference_zero_iff_same
    (w : World) (image last : Gray) :
  last_image (self w) = Some last ->
  image_difference image w = (w, Ok 0%Z) <-> image = last.
Proof.
  intros Hlast. rewrite (WebcamProofs.image_difference_some w image Hlast).
  split.
  - destruct (shape_eqb image last) eqn:Hsh; [|discriminate].
    intros H. injection H as H. now apply diff_zero.
  - intros ->.
    now rewrite WebcamProofs.shape_eqb_refl, WebcamProofs.diff_self.
Qed.

Lemma X13_image_difference_zero_iff_same_witness :
  let a := [["010"%byte; "200"%byte]] in
  let w := mkWorld (mkWebcamImageSender (Some a) None true) [] true in
  image_difference a w = (w, Ok 0%Z).
Proof.
  intros a w.
  apply (proj2 (@X13_image_difference_zero_iff_same w a a eq_refl)).
  reflexivity.
Defined.

(** X14: the difference obeys the triangle inequality: when [a] differs
    from a stored [b] by [dab] and [b] from a stored [c] by [dbc], the
    difference of [a] from the stored [c] is defined and at most
    [dab + dbc]. *)
Theorem X14_image_difference_triangle
    (wb wc : World) (a b c : Gray) (dab dbc : Z) :
  last_image (self wb) = Some b ->
  last_image (self wc) = Some c ->
  image_difference a wb = (wb, Ok dab) ->
  image_difference b wc = (wc, Ok dbc) ->
  exists dac,
    image_difference a wc = (wc, Ok dac) /\ (dac <= dab + dbc)%Z.
Proof.
  intros Hb Hc Hab Hbc.
  rewrite (WebcamProofs.image_difference_some wb a Hb) in Hab.
  rewrite (WebcamProofs.image_difference_some wc b Hc) in Hbc.
  rewrite (WebcamProofs.image_difference_some wc a Hc).
  destruct (shape_eqb a b) eqn:S1; [|discriminate].
  destruct (shape_eqb b c) eqn:S2; [|discriminate].
  injection Hab as <-. injection Hbc as <-.
  rewrite (shape_eqb_trans a b c S1 S2).
  eexists. split; [reflexivity|]. now apply diff_triangle.
Qed.

Lemma X14_image_difference_triangle_witness :
  let a := [["010"%byte; "200"%byte]] in
  let b := [["030"%byte; "100"%byte]] in
  let c := [["000"%byte; "150"%byte]] in
  let wb := mkWorld (mkWebcamImageSender (Some b) None true) [] true in
  let wc := mkWorld (mkWebcamImageSender (Some c) None true) [] true in
  exists dac, image_difference a wc = (wc, Ok dac) /\ (dac <= 120 + 80)%Z.
Proof.
  intros a b c wb wc.
  apply (@X14_image_difference_triangle wb wc a b c 120 80);
    reflexivity.
Defined.

(** *** The capture loop *)

Section CaptureMore.

Variable Frame : Type.
Variable cvtColor_BGR2GRAY : Frame -> Gray.
Variable imencode_jpg : Frame -> list byte.
Variable b64encode : list byte -> list byte.
Variable decode_utf8 : list byte -> string.

Lemma capture_loop_idle (input : list (option Frame * Q)) (w : World) :
  is_running (self w) = false ->
  capture_loop cvtColor_BGR2GRAY imencode_jpg b64encode decode_utf8 input w
  = (set_camera_open false w, Ok Exited).
Proof. intros H. destruct input as [|[f t] r]; simpl; now rewrite H. Qed.

Lemma capture_loop_app (a b : list (option Frame * Q)) :
  forall w,
    capture_loop cvtColor_BGR2GRAY imencode_jpg b64encode decode_utf8
      (a ++ b) w =
    match capture_loop cvtColor_BGR2GRAY imencode_jpg b64encode decode_utf8
            a w with
    | (w1, Ok Waiting) =>
        capture_loop cvtColor_BGR2GRAY imencode_jpg b64encode decode_utf8
          b w1
    | other => other
    end.
Proof.
  induction a as [|[f t] a IH]; intros w.
  - simpl app.
    destruct (is_running (self w)) eqn:Hr.
    + simpl. now rewrite Hr.
    + now rewrite !capture_loop_idle.
  - simpl. destruct (is_running (self w)); [|reflexivity].
    unfold bind.
    destruct (capture_body _ _ _ _ f t w) as [w1 [u|e]]; [|reflexivity].
    apply IH.
Qed.

(** X16: when a grab of the camera fails, the worker ends with the
    library's error: the frames read before it have each been emitted, no
    event is emitted for the failed grab or for anything after it, and the
    camera handle is not released. *)
Theorem X16_failed_grab_ends_worker
    (sh : list nat) (frames : list (Frame * Q)) (now : Q)
    (rest : list (option Frame * Q)) (w : World) :
  is_running (self w) = true ->
  stable_shape sh w ->
  (forall f, In f frames -> shape (cvtColor_BGR2GRAY (fst f)) = sh) ->
  exists w' : World,
    capture_image cvtColor_BGR2GRAY imencode_jpg b64encode decode_utf8
      (reads frames ++ (None, now) :: rest) w = (w', Raise Cv2Error) /\
    emitted w' =
      emitted w ++
      map (fun f => image_event imencode_jpg b64encode decode_utf8 (fst f))
          frames /\
    camera_open w' = true /\
    is_running (self w') = true.
Proof.
  intros Hrun Hw Hf.
  destruct (@WebcamProofs.capture_loop_reads Frame cvtColor_BGR2GRAY
              imencode_jpg b64encode decode_utf8 sh frames
              (set_camera_open true w) Hrun Hw Hf)
    as (w1 & E & Hem & Hr & Hc).
  exists w1. unfold capture_image, bind at 1, modify.
  rewrite capture_loop_app, E. simpl capture_loop. rewrite Hr.
  split; [reflexivity|]. split; [exact Hem|]. split; [exact Hc | reflexivity].
Qed.

(** X17: [stop_capture] takes effect at the next test of the loop: after
    the frames read so far have been emitted, a worker that finds the flag
    cleared reads nothing more, emits nothing more, and releases the
    camera. *)
Theorem X17_stop_capture_ends_worker
    (sh : list nat) (frames : list (Frame * Q))
    (more : list (option Frame * Q)) (w : World) :
  is_running (self w) = true ->
  stable_shape sh w ->
  (forall f, In f frames -> shape (cvtColor_BGR2GRAY (fst f)) = sh) ->
  exists w1 w2 : World,
    capture_image cvtColor_BGR2GRAY imencode_jpg b64encode decode_utf8
      (reads frames) w = (w1, Ok Waiting) /\
    camera_open w1 = true /\
    capture_loop cvtColor_BGR2GRAY imencode_jpg b64encode decode_utf8
      more (fst (stop_capture w1)) = (w2, Ok Exited) /\
    emitted w2 =
      emitted w ++
      map (fun f => image_event imencode_jpg b64encode decode_utf8 (fst f))
          frames /\
    camera_open w2 = false /\
    last_image (self w2) = last_image (self w1).
Proof.
  intros Hrun Hw Hf.
  destruct (@WebcamProofs.capture_loop_reads Frame cvtColor_BGR2GRAY
              imencode_jpg b64encode decode_utf8 sh frames
              (set_camera_open true w) Hrun Hw Hf)
    as (w1 & E & Hem & Hr & Hc).
  exists w1. eexists. split; [exact E|]. split; [exact Hc|].
  split; [apply capture_loop_idle; reflexivity|].
  split; [exact Hem|]. split; reflexivity.
Qed.

(** X18: whatever the camera delivers and in whatever state the sender is,
    the events the worker emits are the "image" events of the frames of a
    prefix of the reads, all successful, in the order read, after the events
    emitted before. *)
Theorem X18_events_follow_reads
    (input : list (option Frame * Q)) (w : World) :
  exists (frames : list Frame) (rest : list (option Frame)),
    map fst input = map Some frames ++ rest /\
    emitted (fst (capture_image cvtColor_BGR2GRAY imencode_jpg b64encode
                    decode_utf8 input w)) =
    emitted w ++
    map (image_event imencode_jpg b64encode decode_utf8) frames.
Proof.
  unfold capture_image, bind at 1, modify.
  change (emitted w) with (emitted (set_camera_open true w)).
  generalize (set_camera_open true w). clear w.
  induction input as [|[read now] input IH]; intros w.
  - exists [], []. simpl. rewrite app_nil_r. split; [reflexivity|].
    destruct (is_running (self w)); reflexivity.
  - destruct (is_running (self w)) eqn:Hrun.
    2:{ exists [], (map fst ((read, now) :: input)).
        rewrite capture_loop_idle by exact Hrun.
        simpl. now rewrite app_nil_r. }
    simpl capture_loop. rewrite Hrun. unfold bind at 1.
    destruct read as [frame|].
    2:{ exists [], (map fst ((None, now) :: input)).
        simpl. now rewrite app_nil_r. }
    rewrite WebcamProofs.capture_body_cases.
    assert (Hgo : forall w1,
      emitted w1 =
        emitted w ++ [image_event imencode_jpg b64encode decode_utf8 frame] ->
      exists frames rest,
        map fst ((Some frame, now) :: input) = map Some frames ++ rest /\
        emitted (fst (capture_loop cvtColor_BGR2GRAY imencode_jpg
                        b64encode decode_utf8 input w1)) =
        emitted w ++
        map (image_event imencode_jpg b64encode decode_utf8) frames).
    { intros w1 Hw1. destruct (IH w1) as (frames & rest & Hm & He).
      exists (frame :: frames), rest. simpl. rewrite Hm.
      split; [reflexivity|]. rewrite He, Hw1, <- app_assoc. reflexivity. }
    destruct (last_image (self w)) as [last|].
    + destruct (shape_eqb (cvtColor_BGR2GRAY frame) last).
      * apply Hgo. destruct (exceeds_threshold w _); reflexivity.
      * exists [], (map fst ((Some frame, now) :: input)).
        simpl. now rewrite app_nil_r.
    + apply Hgo. reflexivity.
Qed.

(** X19: after every pass of the loop that completes, a stable frame is
    stored and the frame just read differs from it by at most 2: it is the
    stable frame itself, or it was too close to the stored one to replace
    it. *)
Theorem X19_stable_frame_is_close
    (w w' : World) (frame : Frame) (now : Q) :
  capture_body cvtColor_BGR2GRAY imencode_jpg b64encode decode_utf8
    (Some frame) now w = (w', Ok tt) ->
  exists (stable : Gray) (d : Z),
    last_image (self w') = Some stable /\
    image_difference (cvtColor_BGR2GRAY frame) w' = (w', Ok d) /\
    (0 <= d <= 2)%Z.
Proof.
  rewrite WebcamProofs.capture_body_cases.
  destruct (last_image (self w)) as [last|] eqn:Hlast.
  - destruct (shape_eqb (cvtColor_BGR2GRAY frame) last) eqn:Hsh;
      [|discriminate].
    rewrite (WebcamProofs.exceeds_threshold_some w _ Hlast Hsh).
    destruct (2 <? _)%Z eqn:Hd; intros H; injection H as <-.
    + exists (cvtColor_BGR2GRAY frame), 0%Z. split; [reflexivity|].
      split; [|lia].
      apply image_difference_same. reflexivity.
    + exists last. eexists. split; [exact Hlast|].
      split.
      * rewrite (@WebcamProofs.image_difference_some _ _ last)
          by exact Hlast.
        rewrite Hsh. reflexivity.
      * apply Z.ltb_ge in Hd.
        pose proof (WebcamProofs.diff_bounds _ _ Hsh). lia.
  - intros H. injection H as <-.
    exists (cvtColor_BGR2GRAY frame), 0%Z. split; [reflexivity|].
    split; [|lia].
    apply image_difference_same. reflexivity.
Qed.

End CaptureMore.

Lemma X16_failed_grab_ends_worker_witness :
  let black := [["000"%byte; "000"%byte]; ["000"%byte; "000"%byte]] in
  let white := [["255"%byte; "255"%byte]; ["255"%byte; "255"%byte]] in
  let w := fst (start_capture init) in
  exists w' : World,
    capture_image (fun f : Gray => f) (@List.concat byte) (fun b => b)
      string_of_list_byte
      (reads [(black, 1%Q); (white, 2%Q)] ++ [(None, 3%Q); (Some black, 4%Q)])
      w = (w', Raise Cv2Error) /\
    List.length (emitted w') = 2%nat /\
    camera_open w' = true.
Proof.
  intros black white w.
  destruct (@X16_failed_grab_ends_worker Gray (fun f : Gray => f)
              (@List.concat byte) (fun b => b) string_of_list_byte
              [2; 2]%nat [(black, 1%Q); (white, 2%Q)] 3%Q
              [(Some black, 4%Q)] w)
    as (w' & E & Hem & Hc & _).
  - reflexivity.
  - intros last Hlast. discriminate Hlast.
  - intros f [<-|[<-|[]]]; reflexivity.
  - exists w'. split; [exact E|]. split; [rewrite Hem; reflexivity|exact Hc].
Defined.

Lemma X17_stop_capture_ends_worker_witness :
  let black := [["000"%byte; "000"%byte]; ["000"%byte; "000"%byte]] in
  let w := fst (start_capture init) in
  exists w1 w2 : World,
    capture_image (fun f : Gray => f) (@List.concat byte) (fun b => b)
      string_of_list_byte (reads [(black, 1%Q)]) w = (w1, Ok Waiting) /\
    capture_loop (fun f : Gray => f) (@List.concat byte) (fun b => b)
      string_of_list_byte [(Some black, 2%Q)] (fst (stop_capture w1))
    = (w2, Ok Exited) /\
    List.length (emitted w2) = 1%nat /\
    camera_open w2 = false.
Proof.
  intros black w.
  destruct (@X17_stop_capture_ends_worker Gray (fun f : Gray => f)
              (@List.concat byte) (fun b => b) string_of_list_byte
              [2; 2]%nat [(black, 1%Q)] [(Some black, 2%Q)] w)
    as (w1 & w2 & E1 & _ & E2 & Hem & Hc & _).
  - reflexivity.
  - intros last Hlast. discriminate Hlast.
  - intros f [<-|[]]; reflexivity.
  - exists w1, w2. split; [exact E1|]. split; [exact E2|].
    split; [rewrite Hem; reflexivity | exact Hc].
Defined.

Lemma X19_stable_frame_is_close_witness :
  let black := [["000"%byte; "000"%byte]; ["000"%byte; "000"%byte]] in
  let dusk := [["000"%byte; "001"%byte]; ["000"%byte; "001"%byte]] in
  let w := mkWorld (mkWebcamImageSender (Some black) (Some 0%Q) true)
             [] true in
  let w' := fst (capture_body (fun f : Gray => f) (@List.concat byte)
                   (fun b => b) string_of_list_byte (Some dusk) 5%Q w) in
  exists (stable : Gray) (d : Z),
    last_image (self w') = Some stable /\
    image_difference dusk w' = (w', Ok d) /\
    (0 <= d <= 2)%Z.
Proof.
  intros black dusk w w'.
  apply (@X19_stable_frame_is_close Gray (fun f : Gray => f)
           (@List.concat byte) (fun b => b) string_of_list_byte
           w w' dusk 5%Q).
  reflexivity.
Defined.

End WebcamMore.

(** * Further properties of the music player *)

Module MusicMore.

Import Music.

Lemma filter_snoc (A : Type) (f : A -> bool) (l : list A) (x : A) :
  filter f (l ++ [x]) = filter f l ++ (if f x then [x] else []).
Proof. rewrite filter_app. reflexivity. Qed.

Lemma run_loop_busy (n : nat) (rest : list bool) :
  forall w,
    stopped (self w) = false ->
    run_loop (repeat true n ++ false :: rest) w =
    (mkWorld (self w) (pc w)
       (mixer w ++ repeat (poll_command (self w)) n), Exited).
Proof.
  induction n as [|n IH]; intros w Hs.
  - simpl. rewrite app_nil_r. destruct w; reflexivity.
  - simpl repeat. simpl app. simpl run_loop. rewrite Hs. simpl andb.
    unfold poll_command.
    destruct (paused (self w)) eqn:Hp; rewrite IH by exact Hs;
      simpl; unfold poll_command; simpl; rewrite Hp, <- app_assoc;
      reflexivity.
Qed.

(** X20: a worker that nobody interrupts hands the mixer init, the load of
    the player's file and play, then at every poll that finds the mixer busy
    the pause command if [paused] is set and the unpause command if not, and
    leaves at the first poll that finds the mixer idle; it never changes the
    player and never stops the mixer. *)
Theorem X20_uninterrupted_run (n : nat) (rest : list bool) (w : World) :
  stopped (self w) = false ->
  run (repeat true n ++ false :: rest) w =
  (mkWorld (self w) (pc w)
     (mixer w ++ prologue (self w) ++ repeat (poll_command (self w)) n),
   Exited).
Proof.
  intros Hs. unfold run. rewrite run_loop_busy by exact Hs.
  unfold prologue, issue. simpl. rewrite <- !app_assoc. reflexivity.
Qed.

Lemma X20_uninterrupted_run_witness :
  run [true; true; false; true] (pause (init "song.mp3")) =
  (mkWorld (mkMusicPlayer "song.mp3" true false) Unstarted
     [MixerInit; MusicLoad "song.mp3"; MusicPlay; MusicPause; MusicPause],
   Exited).
Proof.
  apply (@X20_uninterrupted_run 2 [true] (pause (init "song.mp3"))).
  reflexivity.
Defined.

(** X21: [run] does not look at [stopped] before it starts playback: on a
    player stopped before its worker ran, it still initialises the mixer,
    loads the file and plays it, and then leaves at its first test without
    stopping it. *)
Theorem X21_run_after_stop_still_plays
    (b : bool) (busy : list bool) (w : World) :
  stopped (self w) = true ->
  run (b :: busy) w =
  (mkWorld (self w) (pc w) (mixer w ++ prologue (self w)), Exited).
Proof.
  intros Hs. unfold run. simpl run_loop. simpl self. rewrite Hs.
  rewrite andb_false_r. unfold prologue, issue. simpl.
  rewrite <- !app_assoc. reflexivity.
Qed.

Lemma X21_run_after_stop_still_plays_witness :
  run [true] (stop (init "song.mp3")) =
  (mkWorld (mkMusicPlayer "song.mp3" false true) Unstarted
     [MusicStop; MixerInit; MusicLoad "song.mp3"; MusicPlay],
   Exited).
Proof.
  apply (@X21_run_after_stop_still_plays true [] (stop (init "song.mp3"))).
  reflexivity.
Defined.

Lemma exec_counts (a : Action) (w : World) :
  List.length (filter is_play (mixer w)) =
    (if playback_started (pc w) then 1 else 0)%nat ->
  file_path (self (exec w a)) = file_path (self w) /\
  List.length (filter is_play (mixer (exec w a))) =
    (if playback_started (pc (exec w a)) then 1 else 0)%nat /\
  List.length (filter is_stop (mixer (exec w a))) =
    (List.length (filter is_stop (mixer w)) +
     (if is_call_stop a then 1 else 0))%nat.
Proof.
  intros Hp. destruct a as [| | | |busy]; simpl.
  - unfold start. destruct (pc w) eqn:Hpc; simpl; rewrite ?Hpc;
      (split; [reflexivity|]); (split; [exact Hp | lia]).
  - split; [reflexivity|]. split; [exact Hp | lia].
  - split; [reflexivity|]. split; [exact Hp | lia].
  - rewrite !filter_snoc. simpl.
    rewrite !app_nil_r, length_app. simpl.
    split; [reflexivity|]. split; [exact Hp | lia].
  - unfold run_step. destruct (pc w) eqn:Hpc; simpl; rewrite ?Hpc.
    + split; [reflexivity|]. split; [exact Hp | lia].
    + rewrite <- !app_assoc, !filter_app, !length_app. simpl. simpl in Hp.
      split; [reflexivity|]. split; lia.
    + destruct (busy && negb (stopped (self w))); simpl;
        (split; [reflexivity|]); (split; [exact Hp | lia]).
    + destruct (paused (self w)); simpl; rewrite !filter_snoc; simpl;
        rewrite !app_nil_r; (split; [reflexivity|]);
        (split; [exact Hp | lia]).
    + split; [reflexivity|]. split; [exact Hp | lia].
Qed.

Lemma exec_all_counts (acts : list Action) :
  forall w,
    List.length (filter is_play (mixer w)) =
      (if playback_started (pc w) then 1 else 0)%nat ->
    file_path (self (exec_all acts w)) = file_path (self w) /\
    List.length (filter is_play (mixer (exec_all acts w))) =
      (if playback_started (pc (exec_all acts w)) then 1 else 0)%nat /\
    List.length (filter is_stop (mixer (exec_all acts w))) =
      (List.length (filter is_stop (mixer w)) +
       List.length (filter is_call_stop acts))%nat.
Proof.
  induction acts as [|a acts IH]; intros w Hp.
  - simpl. repeat split; [exact Hp | lia].
  - rewrite MusicProofs.exec_all_cons.
    destruct (exec_counts a w Hp) as (Hf & Hp' & Hs).
    destruct (IH (exec w a) Hp') as (Hf2 & Hp2 & Hs2).
    rewrite Hf2, Hf, Hs2, Hs. split; [reflexivity|]. split; [exact Hp2|].
    simpl filter. destruct (is_call_stop a); simpl; lia.
Qed.

(** X22: through any sequence of calls of start, pause, resume and stop
    and of steps of the worker on a new player, the file path stays the one
    given to the constructor, the mixer is told to play exactly once if the
    worker has reached its loop and never otherwise, and it is told to stop
    once per call of [stop]: the worker itself never stops the mixer and
    never plays twice. *)
Theorem X22_play_once_stop_per_call (path : string) (acts : list Action) :
  let w := exec_all acts (init path) in
  file_path (self w) = path /\
  List.length (filter is_play (mixer w)) =
    (if playback_started (pc w) then 1 else 0)%nat /\
  List.length (filter is_stop (mixer w)) =
    List.length (filter is_call_stop acts).
Proof.
  intros w. subst w.
  destruct (exec_all_counts acts (init path) eq_refl) as (Hf & Hp & Hs).
  split; [exact Hf|]. split; [exact Hp|]. exact Hs.
Qed.

(** X23: only the last call of [pause] or [resume] before a poll reaches
    the mixer: a pause taken back before the worker's next pass is never
    applied, and a resume followed by a pause leaves the mixer paused. *)
Theorem X23_last_call_before_poll_wins (w : World) (acts : list Action) :
  pc w = AtLoopTest ->
  stopped (self w) = false ->
  forallb is_pause_or_resume acts = true ->
  mixer (exec_all (acts ++ [CallPause; CallResume] ++ passes [true]) w) =
    mixer w ++ [MusicUnpause] /\
  mixer (exec_all (acts ++ [CallResume; CallPause] ++ passes [true]) w) =
    mixer w ++ [MusicPause].
Proof.
  intros Hpc Hs Hacts.
  destruct (MusicProofs.pause_resume_only_flag acts w Hacts)
    as (_ & Hs' & Hpc' & Hm').
  unfold exec_all in *. rewrite !fold_left_app.
  set (w1 := fold_left exec acts w) in *.
  simpl. unfold run_step. simpl. rewrite Hpc', Hpc, Hs', Hs. simpl.
  rewrite Hm'. split; reflexivity.
Qed.

Lemma X23_last_call_before_poll_wins_witness :
  let w := exec_all [CallStart; WorkerStep true] (init "song.mp3") in
  mixer (exec_all ([CallPause] ++ [CallPause; CallResume] ++ passes [true])
           w) =
  mixer w ++ [MusicUnpause].
Proof.
  intros w.
  apply (proj1 (@X23_last_call_before_poll_wins w [CallPause]
                  eq_refl eq_refl eq_refl)).
Defined.

End MusicMore.
